(** * boxesandglue: the unit system, the font resolver and the rich-text
      compiler, embedded in Rocq.

    The development follows the Go sources:
    - [bag]       lengths in scaled points and the parser [Sp]
                  (package bag);
    - [document]  font sources and font families (package document);
    - [node]      the node arena and the list primitives (package node);
    - [frontend]  [BuildNodelistFromString], [Mknodes] and
                  [FormatParagraph] (package frontend).

    Go values are modelled as the code has them: [int] as [Z], [float64] as
    the primitive binary64 floats, strings as [string] (one character per
    byte), maps as [gmap], pointers to nodes as indices into an arena. *)

From Stdlib Require Import ZArith String Ascii List Bool Lia.
From Stdlib Require Import Floats.
From stdpp Require Import base option list gmap strings.

Set Warnings "-inexact-float".

Local Open Scope string_scope.
Local Open Scope list_scope.
Local Open Scope Z_scope.

(** ** Outcomes of a Go call

    A Go function of this repository returns a value, returns a non-nil
    [error], or panics (a failed type assertion, a nil dereference, an
    explicit [panic]).  [Stuck] marks the two places where Go fixes no
    result the model could give: a float64 that does not fit the [int] it is
    converted to (the value is implementation-dependent), and a walk along
    a cyclic node list (the call does not return). *)

Inductive outcome (E A : Type) : Type :=
| Ok (a : A)
| Err (e : E)
| Panic (msg : string)
| Stuck (why : string).

Arguments Ok {E A} a.
Arguments Err {E A} e.
Arguments Panic {E A} msg.
Arguments Stuck {E A} why.

(** ** Package bag *)

Module bag.

(** [type ScaledPoint int]; Go's [int] has 64 bits on the supported
    platforms. *)
Abbreviation ScaledPoint := Z (only parsing).

Definition int_min : Z := - 2 ^ 63.
Definition int_max : Z := 2 ^ 63 - 1.

(** Two's complement wrap-around of an [int] result. *)
Definition wrap (z : Z) : Z := (z + 2 ^ 63) mod 2 ^ 64 - 2 ^ 63.

(** [const Factor ScaledPoint = 0xffff] *)
Definition Factor : ScaledPoint := 0xffff.

(** [float64(s)] for an [int] [s]: the nearest binary64 value. *)
Definition float64_of_int (z : Z) : float :=
  match z with
  | Z0 => 0%float
  | Zpos _ => PrimFloat.of_uint63 (Uint63.of_Z z)
  | Zneg p =>
      if z =? int_min then (- 9223372036854775808)%float
      else (- PrimFloat.of_uint63 (Uint63.of_Z (Zpos p)))%float
  end.

(** [ScaledPoint(f)] for a [float64] [f]: the fraction is discarded. When
    [f] is a NaN, an infinity or outside the range of [int], Go leaves the
    value implementation-dependent: the model answers [None]. *)
Definition int_of_float64 (f : float) : option Z :=
  match Prim2SF f with
  | S754_zero _ => Some 0
  | S754_finite s m e =>
      let a := if 0 <=? e then Zpos m * 2 ^ e else Zpos m / 2 ^ (- e) in
      let z := if s then - a else a in
      if (int_min <=? z) && (z <=? int_max) then Some z else None
  | S754_infinity _ | S754_nan => None
  end.

(** [func ScaledPointFromFloat(f float64) ScaledPoint] *)
Definition ScaledPointFromFloat (f : float) : option ScaledPoint :=
  int_of_float64 (f * float64_of_int Factor)%float.

(** [func (s ScaledPoint) ToPT() float64] *)
Definition ToPT (s : ScaledPoint) : float :=
  (float64_of_int s / float64_of_int Factor)%float.

(** *** The regular expression [(.*?)(mm|cm|in|pt|px|pc|m)] *)

(** [strings.ToLower] on the bytes of the string (ASCII letters). *)
Definition lower_ascii (c : ascii) : ascii :=
  let n := nat_of_ascii c in
  if ((65 <=? n) && (n <=? 90))%nat then ascii_of_nat (n + 32) else c.

Fixpoint ToLower (s : string) : string :=
  match s with
  | EmptyString => EmptyString
  | String c s' => String (lower_ascii c) (ToLower s')
  end.

(** The alternatives of the second group, in the order of the pattern. *)
Definition unitTokens : list string :=
  ["mm"; "cm"; "in"; "pt"; "px"; "pc"; "m"].

(** [s] starts with the characters of [t]. *)
Fixpoint hasPrefix (t s : string) : bool :=
  match t, s with
  | EmptyString, _ => true
  | String a t', String b s' => Ascii.eqb a b && hasPrefix t' s'
  | String _ _, EmptyString => false
  end.

Fixpoint firstPrefix (toks : list string) (s : string) : option string :=
  match toks with
  | [] => None
  | t :: toks' => if hasPrefix t s then Some t else firstPrefix toks' s
  end.

(** The alternative that matches at the start of [s]: the first one in the
    order of the pattern (Go's leftmost-first alternation). *)
Definition unitAt (s : string) : option string := firstPrefix unitTokens s.

Definition newline : ascii := ascii_of_nat 10.

(** All successive non-overlapping matches of the pattern, each as the
    list [whole; group 1; group 2].  [g1] is what the lazy [.*?] has
    consumed since the start of the current attempt; [skip] counts the
    characters of a unit token that remain to be stepped over after a match.
    [.] does not match a newline, so an attempt that meets one before any
    unit token fails and the search resumes behind it. *)
Fixpoint scan (skip : nat) (g1 : string) (s : string) : list (list string) :=
  match s with
  | EmptyString => []
  | String c s' =>
      match skip with
      | S k => scan k g1 s'
      | O =>
          match unitAt s with
          | Some u =>
              [(g1 ++ u)%string; g1; u] :: scan (String.length u - 1) "" s'
          | None =>
              if Ascii.eqb c newline then scan 0 "" s'
              else scan 0 (g1 ++ String c "")%string s'
          end
      end
  end.

(** [unitRE.FindAllStringSubmatch(s, -1)] *)
Definition FindAllStringSubmatch (s : string) : list (list string) :=
  scan 0 "" s.

(** *** Sp *)

(** The errors of [Sp]; every one of them wraps or is [ErrConversion]. *)
Inductive ConversionError : Type :=
| ErrLenM (n : nat)            (* "%w len(m) %d" *)
| ErrLenM0 (n : nat)           (* "%w len(m[0]) %d" *)
| ErrParseFloat (s : string)   (* "%w parse float %s" *)
| ErrConversion.               (* the bare sentinel *)

(** What a call of [Sp] gives: a length and a nil error, an error, or a nil
    error with a length that Go leaves implementation-dependent (the
    float64 does not fit an [int]). *)
Inductive SpResult : Type :=
| SpOk (sp : ScaledPoint)
| SpErr (e : ConversionError)
| SpUnspecified.

Definition toScaledPoint (f : float) : SpResult :=
  match int_of_float64 f with
  | Some z => SpOk z
  | None => SpUnspecified
  end.

(** The [switch unitstring] of [Sp], for the number [l]. *)
Definition convert (unitstring : string) (l : float) : SpResult :=
  let F := float64_of_int Factor in
  if String.eqb unitstring "pt" then toScaledPoint (l * F)%float
  else if String.eqb unitstring "in" then toScaledPoint (l * 72 * F)%float
  else if String.eqb unitstring "mm" then
    (* l = l / 10 [cm], l = l / 2.54 [in], l = l * 72 [pt] *)
    toScaledPoint (l / 10 / 2.54 * 72 * F)%float
  else if String.eqb unitstring "cm" then
    toScaledPoint (l / 2.54 * 72 * F)%float
  else if String.eqb unitstring "m" then
    toScaledPoint (l * 100 / 2.54 * 72 * F)%float
  else if String.eqb unitstring "px" then
    toScaledPoint (l * 96 / 72 * F)%float
  else if String.eqb unitstring "pc" then
    toScaledPoint (l * 12 * F)%float
  else SpErr ErrConversion.

Section Units.

(** [strconv.ParseFloat(s, 64)] of the Go standard library: [Some l] when
    it returns [l] and a nil error, [None] when it returns an error. *)
Variable ParseFloat : string -> option float.

(** [func Sp(unit string) (ScaledPoint, error)] *)
Definition Sp (unit : string) : SpResult :=
  let unit := ToLower unit in
  let m := FindAllStringSubmatch unit in
  if negb (length m =? 1)%nat then SpErr (ErrLenM (length m))
  else
    match m with
    | m0 :: _ =>
        if negb (length m0 =? 3)%nat then SpErr (ErrLenM0 (length m0))
        else
          match m0 with
          | [_; m01; unitstring] =>
              match ParseFloat m01 with
              | None => SpErr (ErrParseFloat m01)
              | Some l => convert unitstring l
              end
          | _ => SpErr (ErrLenM0 (length m0))
          end
    | [] => SpErr (ErrLenM (length m))
    end.

(** [func MustSp(unit string) ScaledPoint]: panics on an error. *)
Definition MustSp (unit : string) : outcome ConversionError (option ScaledPoint) :=
  match Sp unit with
  | SpOk v => Ok (Some v)
  | SpUnspecified => Ok None
  | SpErr _ => Panic "Conversion error"
  end.

End Units.

(** *** Decimal literals

    [strconv.ParseFloat] on the literals the examples use: an optional
    sign followed by [inf], [infinity], or decimal digits with an optional
    fraction, and [nan].  The value of a decimal literal is the quotient of
    two integers that binary64 represents exactly, which is how the Go
    library computes it for such short literals. *)

Definition digit_of (c : ascii) : option Z :=
  let n := nat_of_ascii c in
  if ((48 <=? n) && (n <=? 57))%nat then Some (Z.of_nat n - 48) else None.

(** Reads digits: the number read so far and how many digits it has. *)
Fixpoint readDigits (acc : Z) (nd : nat) (s : string) : Z * nat * string :=
  match s with
  | EmptyString => (acc, nd, s)
  | String c s' =>
      match digit_of c with
      | Some d => readDigits (10 * acc + d) (S nd) s'
      | None => (acc, nd, s)
      end
  end.

Definition parseUnsigned (s : string) : option float :=
  if String.eqb s "inf" || String.eqb s "infinity" then Some infinity
  else
    let '(ip, ni, rest) := readDigits 0 0 s in
    let '(mant, nf, rest') :=
      match rest with
      | String "." r =>
          let '(m, n, r') := readDigits ip 0 r in (m, n, r')
      | _ => (ip, 0%nat, rest)
      end in
    match rest' with
    | EmptyString =>
        if ((ni + nf =? 0)%nat || (2 ^ 53 <=? mant) || (22 <? nf)%nat)%bool
        then None
        else Some (float64_of_int mant / float64_of_int (10 ^ Z.of_nat nf))%float
    | _ => None
    end.

(** No unit token occurs in [s]. *)
Fixpoint unitFree (s : string) : bool :=
  match s with
  | EmptyString => true
  | String _ s' =>
      match unitAt s with
      | Some _ => false
      | None => unitFree s'
      end
  end.

(** In the text [num ++ rest] no unit token starts at a character of
    [num], and [num] has no line feed. *)
Fixpoint noUnitBefore (num rest : string) : bool :=
  match num with
  | EmptyString => true
  | String c num' =>
      match unitAt (num ++ rest)%string with
      | Some _ => false
      | None => negb (Ascii.eqb c newline) && noUnitBefore num' rest
      end
  end.

Definition parseFloatLit (s : string) : option float :=
  if String.eqb s "nan" then Some nan
  else
    match s with
    | String "+" r => parseUnsigned r
    | String "-" r => option_map PrimFloat.opp (parseUnsigned r)
    | _ => parseUnsigned s
    end.

End bag.

(** ** Package document: font sources and font families *)

Module document.

(** [type FontStyle int] with [FontStyleNormal = iota], [FontStyleItalic],
    [FontStyleOblique]; [type FontWeight int]. *)
Abbreviation FontStyle := Z (only parsing).
Definition FontStyleNormal : FontStyle := 0.
Definition FontStyleItalic : FontStyle := 1.
Definition FontStyleOblique : FontStyle := 2.

Abbreviation FontWeight := Z (only parsing).
Definition FontWeight400 : FontWeight := 400.
Definition FontWeight700 : FontWeight := 700.

(** [var ErrEmptyFF], [var ErrUnfulfilledFamilyRequest], and the error an
    external collaborator (the font loader) may return. *)
Inductive error : Type :=
| ErrEmptyFF
| ErrUnfulfilledFamilyRequest
| ErrExternal (msg : string).

(** [type FontSource struct]; [SizeAdjust] is the field the compiler reads
    ([fs.SizeAdjust]). The cached [face] is the business of the loader. *)
Record FontSource : Type := mkFontSource {
  Name : string;
  FontFeatures : list string;
  Source : string;
  Index : Z;
  SizeAdjust : float;
}.

(** [type FontFamily struct]: [familyMember] is a
    [map[int]map[FontStyle]*FontSource]; [None] is the nil map of a family
    without members, and a stored [None] is a nil [*FontSource]. *)
Record FontFamily : Type := mkFontFamily {
  ID : Z;
  FamilyName : string;
  familyMember : option (gmap Z (gmap Z (option FontSource)));
}.

(** [func (ff *FontFamily) AddMember(fontsource *FontSource, weight int,
    style FontStyle)] *)
Definition AddMember (ff : FontFamily) (fontsource : option FontSource)
    (weight : Z) (style : FontStyle) : FontFamily :=
  let fm := default ∅ (familyMember ff) in
  let byStyle := default ∅ (fm !! weight) in
  {| ID := ID ff; FamilyName := FamilyName ff;
     familyMember := Some (<[weight := <[style := fontsource]> byStyle]> fm) |}.

(** [func (ff *FontFamily) GetFontSource(weight int, style FontStyle)]
    returns a [*FontSource] and an [error]. *)
Definition GetFontSource (ff : FontFamily) (weight : Z) (style : FontStyle)
    : outcome error FontSource :=
  match familyMember ff with
  | None => Err ErrEmptyFF
  | Some fm =>
      match fm !! weight with
      | None => Err ErrUnfulfilledFamilyRequest
      | Some byStyle =>
          match byStyle !! style with
          | None | Some None => Err ErrUnfulfilledFamilyRequest
          | Some (Some fs) => Ok fs
          end
      end
  end.

(** [type Hyperlink struct]: the compiler reads [URI]. *)
Record Hyperlink : Type := mkHyperlink { URI : string }.

End document.

(** ** Packages color and font: what the compiler reads of them *)

Module color.

(** [type Color struct]; [PDFStringNonStroking] is the operator string the
    method of that name returns. *)
Record Color : Type := mkColor { PDFStringNonStroking : string }.

End color.

Module font.

(** [type Font struct]: a face at a size, with the space metrics the
    compiler copies into glue and rules. [Face] is the identity of the
    loaded [*pdf.Face]. *)
Record Font : Type := mkFont {
  Face : nat;
  Size : bag.ScaledPoint;
  Space : bag.ScaledPoint;
  SpaceStretch : bag.ScaledPoint;
  SpaceShrink : bag.ScaledPoint;
}.

(** [type Atom struct]: one shaped item of [Font.Shape]. *)
Record Atom : Type := mkAtom {
  IsSpace : bool;
  Components : string;
  Codepoint : Z;
  Advance : bag.ScaledPoint;
  Height : bag.ScaledPoint;
  Depth : bag.ScaledPoint;
  Kernafter : bag.ScaledPoint;
  Hyphenate : bool;
}.

End font.

(** ** Package node: the arena of nodes and the list primitives *)

Module node.

(** A [node.Node] is a pointer; the model keeps every node ever created in
    one arena, in the order of creation, and a pointer is the index of the
    node there, which is also its [ID] (the package hands out the IDs from
    one counter). [None] is the nil [Node]. *)
Abbreviation ptr := nat (only parsing).

Inductive ActionType : Type := ActionNone | ActionHyperlink.
Inductive PDFDataOutput : Type := PDFOutputNone | PDFOutputPage.
Inductive GlueSubtype : Type := GlueDefault | GlueLineStart | GlueLineEnd.

(** The two callbacks the compiler installs on a [StartStop]: the closure
    returning [col.PDFStringNonStroking() + " "] and the one returning
    ["0 0 0 RG 0 0 0 rg "]. *)
Inductive Callback : Type :=
| CallbackColor (col : color.Color)
| CallbackReset.

Module Glyph.
Record t : Type := mk {
  Font : option nat;     (* the [*font.Font], an index into the fonts *)
  Components : string;
  Codepoint : Z;
  Hyphenate : bool;
  Width : bag.ScaledPoint;
  Height : bag.ScaledPoint;
  Depth : bag.ScaledPoint;
  YOffset : bag.ScaledPoint;
}.
End Glyph.

Module Glue.
Record t : Type := mk {
  Width : bag.ScaledPoint;
  Stretch : bag.ScaledPoint;
  Shrink : bag.ScaledPoint;
  StretchOrder : Z;
  ShrinkOrder : Z;
  Subtype : GlueSubtype;
}.
Definition zero : t := mk 0 0 0 0 0 GlueDefault.
End Glue.

Module Kern.
Record t : Type := mk { Kern : bag.ScaledPoint }.
End Kern.

Module Penalty.
Record t : Type := mk { Penalty : Z; Width : bag.ScaledPoint }.
End Penalty.

Module Rule.
Record t : Type := mk {
  Width : bag.ScaledPoint;
  Height : bag.ScaledPoint;
  Depth : bag.ScaledPoint;
}.
End Rule.

Module StartStop.
Record t : Type := mk {
  Action : ActionType;
  StartNode : option ptr;
  Position : PDFDataOutput;
  Callback : option Callback;
  Value : option document.Hyperlink;
}.
Definition zero : t := mk ActionNone None PDFOutputNone None None.
End StartStop.

Module VList.
Record t : Type := mk {
  Width : bag.ScaledPoint;
  Height : bag.ScaledPoint;
  Depth : bag.ScaledPoint;
  List : option ptr;
}.
End VList.

(** The variants of a node. *)
Inductive Content : Type :=
| Disc
| Glyph (g : Glyph.t)
| Glue (g : Glue.t)
| HList (sublist : option ptr)
| Image
| Kern (k : Kern.t)
| Lang
| Penalty (p : Penalty.t)
| Rule (r : Rule.t)
| StartStop (s : StartStop.t)
| VList (v : VList.t).

(** A node in the arena: its variant, the links of the list it is in, and
    its [Attributes]. *)
Record Node : Type := mkNode {
  content : Content;
  next : option ptr;
  prev : option ptr;
  Attributes : list (string * string);
}.

Abbreviation Heap := (list Node) (only parsing).

(** The constructors [NewGlyph], [NewGlue], ...: the node takes the next ID
    and is not linked. The model creates the node with the fields the
    caller assigns right after the constructor returns. *)
Definition New (c : Content) (h : Heap) : ptr * Heap :=
  (length h, h ++ [mkNode c None None []]).

Definition Next (h : Heap) (n : ptr) : option ptr := h !! n ≫= next.

Definition SetNext (n : ptr) (v : option ptr) (h : Heap) : Heap :=
  alter (λ nd, mkNode (content nd) v (prev nd) (Attributes nd)) n h.

Definition SetPrev (n : ptr) (v : option ptr) (h : Heap) : Heap :=
  alter (λ nd, mkNode (content nd) (next nd) v (Attributes nd)) n h.

Definition SetAttributes (n : ptr) (a : list (string * string)) (h : Heap)
    : Heap :=
  alter (λ nd, mkNode (content nd) (next nd) (prev nd) a) n h.

(** Modelled from the spec: [node.InsertAfter(head, cur, insert)], whose
    source is not part of the excerpt. "Insert a node (or sub-list)
    immediately after a given node, returning the new head (if the list was
    empty) and letting the caller update its own tail": [insert] becomes the
    successor of [cur] and takes over the successor [cur] had, if it had
    one; with no [cur], [insert] is the new head. *)
Definition InsertAfter (head cur : option ptr) (insert : ptr) (h : Heap)
    : option ptr * Heap :=
  match cur with
  | None =>
      match head with
      | None => (Some insert, h)
      | Some hd =>
          (Some insert, SetPrev hd (Some insert) (SetNext insert (Some hd) h))
      end
  | Some c =>
      let h1 :=
        match Next h c with
        | Some cn => SetPrev cn (Some insert) (SetNext insert (Some cn) h)
        | None => h
        end in
      let h2 := SetPrev insert (Some c) (SetNext c (Some insert) h1) in
      (match head with None => Some c | Some _ => head end, h2)
  end.

(** Modelled from the spec: [node.Tail(nl)], "walk forward from any node to
    the last node reachable by the forward link". The walk has one step of
    fuel per node of the arena and one more; on a cyclic list, where the Go
    loop does not end, the fuel runs out and the answer is [None]. *)
Fixpoint TailFrom (fuel : nat) (h : Heap) (n : ptr) : option ptr :=
  match fuel with
  | O => None
  | S fuel' =>
      match Next h n with
      | None => Some n
      | Some m => TailFrom fuel' h m
      end
  end.

Definition Tail (h : Heap) (nl : ptr) : option ptr :=
  TailFrom (S (length h)) h nl.

(** Modelled from the spec: [node.AppendLineEndAfter(head, n)], "append a
    Penalty/Glue sequence that forces a break": a penalty that forbids a
    break, a glue that fills the line, a penalty that forces the break. It
    returns the head and the last node it has appended. *)
Definition lineEnd : list Content :=
  [ Penalty (Penalty.mk 10000 0);
    Glue (Glue.mk 0 bag.Factor 0 1 0 GlueLineEnd);
    Penalty (Penalty.mk (-10000) 0) ].

Definition AppendLineEndAfter (head n : option ptr) (h : Heap)
    : option ptr * option ptr * Heap :=
  fold_left
    (λ '(head, cur, h) c,
       let '(p, h) := New c h in
       let '(head, h) := InsertAfter head cur p h in
       (head, Some p, h))
    lineEnd (head, n, h).

(** The nodes of a list in order, following the forward links from [head]
    for at most [fuel] nodes. *)
Fixpoint listFrom (fuel : nat) (h : Heap) (head : option ptr) : list ptr :=
  match fuel, head with
  | S fuel', Some n => n :: listFrom fuel' h (Next h n)
  | _, _ => []
  end.

(** The list that starts at [head]: every node of the arena is visited at
    most once on a list without a cycle. *)
Definition toList (h : Heap) (head : option ptr) : list ptr :=
  listFrom (length h) h head.

(** [ids] are the nodes of the list from [start] on, in order, and the last
    of them has no successor. *)
Fixpoint chain (h : Heap) (start : option ptr) (ids : list ptr) : Prop :=
  match ids with
  | [] => start = None
  | i :: ids' => start = Some i ∧ i < length h ∧ chain h (Next h i) ids'
  end%nat.

(** The variant of the node at [n]. *)
Definition contentOf (h : Heap) (n : ptr) : option Content :=
  content <$> h !! n.

End node.

(** ** Package frontend: settings and the rich-text tree *)

Module frontend.

Export document.

(** [type SettingType int] and its constants, numbered by [iota]. *)
Abbreviation SettingType := Z (only parsing).
Definition SettingDummy : SettingType := 0.
Definition SettingColor : SettingType := 1.
Definition SettingFontFamily : SettingType := 2.
Definition SettingFontWeight : SettingType := 3.
Definition SettingHAlign : SettingType := 4.
Definition SettingHyperlink : SettingType := 5.
Definition SettingIndentLeft : SettingType := 6.
Definition SettingIndentLeftRows : SettingType := 7.
Definition SettingLeading : SettingType := 8.
Definition SettingMarginBottom : SettingType := 9.
Definition SettingMarginLeft : SettingType := 10.
Definition SettingMarginRight : SettingType := 11.
Definition SettingMarginTop : SettingType := 12.
Definition SettingOpenTypeFeature : SettingType := 13.
Definition SettingPreserveWhitespace : SettingType := 14.
Definition SettingSize : SettingType := 15.
Definition SettingStyle : SettingType := 16.
Definition SettingYOffset : SettingType := 17.

Inductive HorizontalAlignment : Type :=
| HAlignDefault | HAlignLeft | HAlignRight | HAlignCenter | HAlignJustified.

(** The dynamic values a setting holds ([any]): one constructor for each
    type the compiler asserts or switches on, [VNil] for the nil interface
    and [VOther] for a value of any other type. *)
Inductive Value : Type :=
| VInt (n : Z)
| VFontWeight (w : FontWeight)
| VFontFamily (ff : option FontFamily)       (* [*FontFamily], maybe nil *)
| VScaledPoint (sp : bag.ScaledPoint)
| VString (s : string)
| VStrings (l : list string)
| VColor (c : option color.Color)            (* [*color.Color], maybe nil *)
| VHyperlink (h : Hyperlink)
| VFontStyle (s : FontStyle)
| VBool (b : bool)
| VHAlign (a : HorizontalAlignment)
| VNil
| VOther (typename : string).

(** [type TypesettingSettings map[SettingType]any] *)
Abbreviation TypesettingSettings := (gmap Z Value).

(** [type Text struct { Settings; Items []any }]. An item is a string, a
    [*Text], a [node.Node], or a value of another type. The tree owns its
    spans: no [*Text] occurs twice. *)
Inductive Text : Type :=
| mkText (settings : TypesettingSettings) (items : list Item)
with Item : Type :=
| ItemString (s : string)
| ItemText (t : Text)
| ItemNode (n : node.ptr)
| ItemOther (typename : string).

Definition Settings (t : Text) : TypesettingSettings :=
  match t with mkText s _ => s end.

Definition Items (t : Text) : list Item :=
  match t with mkText _ i => i end.

(** [func NewText() *Text] *)
Definition NewText : Text := mkText ∅ [].

(** [type paragraph struct] *)
Record paragraph : Type := mkParagraph {
  alignment : HorizontalAlignment;
  fontfamily : option FontFamily;
  fontsize : bag.ScaledPoint;
  hsize : bag.ScaledPoint;
  indentLeft : bag.ScaledPoint;
  indentLeftRows : Z;
  language : option string;
  leading : bag.ScaledPoint;
}.

(** [type TypesettingOption func( *paragraph)] and the options. *)
Definition TypesettingOption : Type := paragraph -> paragraph.

Definition Leading (l : bag.ScaledPoint) : TypesettingOption :=
  λ p, mkParagraph (alignment p) (fontfamily p) (fontsize p) (hsize p)
         (indentLeft p) (indentLeftRows p) (language p) l.

Definition Language (lang : option string) : TypesettingOption :=
  λ p, mkParagraph (alignment p) (fontfamily p) (fontsize p) (hsize p)
         (indentLeft p) (indentLeftRows p) lang (leading p).

Definition FontSize (size : bag.ScaledPoint) : TypesettingOption :=
  λ p, mkParagraph (alignment p) (fontfamily p) size (hsize p)
         (indentLeft p) (indentLeftRows p) (language p) (leading p).

Definition IndentLeft (size : bag.ScaledPoint) (rows : Z) : TypesettingOption :=
  λ p, mkParagraph (alignment p) (fontfamily p) (fontsize p) (hsize p)
         size rows (language p) (leading p).

Definition Family (fam : option FontFamily) : TypesettingOption :=
  λ p, mkParagraph (alignment p) fam (fontsize p) (hsize p)
         (indentLeft p) (indentLeftRows p) (language p) (leading p).

Definition HorizontalAlign (a : HorizontalAlignment) : TypesettingOption :=
  λ p, mkParagraph a (fontfamily p) (fontsize p) (hsize p)
         (indentLeft p) (indentLeftRows p) (language p) (leading p).

(** [node.LinebreakSettings]: the fields [FormatParagraph] assigns. *)
Record LinebreakSettings : Type := mkLinebreakSettings {
  HSize : bag.ScaledPoint;
  Indent : bag.ScaledPoint;
  IndentRows : Z;
  LineHeight : bag.ScaledPoint;
  LineStartGlue : option node.ptr;
  LineEndGlue : option node.ptr;
}.

(** The collaborators of the compiler whose code is not part of this
    repository's excerpt: the shaping engine, the font loader, the colour
    table, the hyphenator and the line breaker.  They are the interface the
    compiler is written against. *)
Class Externals : Type := {
  (** [harfbuzz.Feature] and [harfbuzz.ParseFeature]; on a parse error the
      compiler logs and still appends the feature it got. *)
  Feature : Type;
  ParseFeature : string -> Feature;
  (** [fe.GetColor(name)], nil for an unknown name. *)
  GetColor : string -> option color.Color;
  (** [fe.LoadFace(fs)]: the identity of the loaded face, or an error. *)
  LoadFace : FontSource -> error + nat;
  (** [fe.Doc.CreateFont(face, size)]: the font the new instance holds. *)
  CreateFont : nat -> bag.ScaledPoint -> font.Font;
  (** [fnt.Shape(str, features)] *)
  Shape : font.Font -> string -> list Feature -> list font.Atom;
  (** [node.Vpack(n)]: the new vertical box around the list at [n]. *)
  Vpack : node.Heap -> node.ptr -> node.ptr * node.Heap;
  (** [Hyphenate(head, language)] *)
  Hyphenate : node.Heap -> option node.ptr -> option string -> node.Heap;
  (** [node.Linebreak(head, settings)]: the box and the breakpoints. *)
  Breakpoint : Type;
  Linebreak : node.Heap -> option node.ptr -> LinebreakSettings ->
              option node.ptr * list Breakpoint * node.Heap;
}.

(** ** Package frontend: the compiler *)

Section Compiler.

Context `{!Externals}.

(** [type Document struct]: what the compiler reads and writes of it.
    [heap] holds every node created so far and [fonts] every font
    instance [CreateFont] has returned, in the order of the calls; a
    [*font.Font] is an index into [fonts].  [compiledRuns] is a history
    variable, not a field of the Go struct: it records the arguments of
    every call of [BuildNodelistFromString], so that a statement can say
    with which settings a text run was compiled. *)
Record Document : Type := mkDocument {
  heap : node.Heap;
  fonts : list font.Font;
  usedFonts : gmap nat (gmap Z nat);
  DefaultFeatures : list Feature;
  DefaultLanguage : option string;
  compiledRuns : list (TypesettingSettings * string);
}.

Definition withHeap (fe : Document) (h : node.Heap) : Document :=
  mkDocument h (fonts fe) (usedFonts fe) (DefaultFeatures fe)
    (DefaultLanguage fe) (compiledRuns fe).

Definition withFonts (fe : Document) (fs : list font.Font)
    (uf : gmap nat (gmap Z nat)) : Document :=
  mkDocument (heap fe) fs uf (DefaultFeatures fe) (DefaultLanguage fe)
    (compiledRuns fe).

Definition recordRun (fe : Document) (ts : TypesettingSettings)
    (str : string) : Document :=
  mkDocument (heap fe) (fonts fe) (usedFonts fe) (DefaultFeatures fe)
    (DefaultLanguage fe) (compiledRuns fe ++ [(ts, str)]).

(** [strings.Split(s, ",")] *)
Fixpoint splitComma (cur : string) (s : string) : list string :=
  match s with
  | EmptyString => [cur]
  | String c s' =>
      if Ascii.eqb c ","%char then cur :: splitComma "" s'
      else splitComma (cur ++ String c "")%string s'
  end.

(** [func parseHarfbuzzFontFeatures(featurelist any) []harfbuzz.Feature] *)
Definition parseHarfbuzzFontFeatures (featurelist : Value) : list Feature :=
  match featurelist with
  | VString t => map ParseFeature (splitComma "" t)
  | VStrings t =>
      flat_map (λ single, map ParseFeature (splitComma "" single)) t
  | _ => []
  end.

(** The local variables of [BuildNodelistFromString] that the loop over
    the settings assigns, with their initial values. *)
Record locals : Type := mkLocals {
  l_fontweight : FontWeight;
  l_fontstyle : FontStyle;
  l_fontfamily : option FontFamily;
  l_fontsize : bag.ScaledPoint;
  l_col : option color.Color;
  l_hyperlink : option Hyperlink;      (* [Some] iff [hasHyperlink] *)
  l_preserveWhitespace : bool;
  l_yoffset : bag.ScaledPoint;
  l_settingFontFeatures : list Feature;
}.

Definition initialLocals : locals :=
  mkLocals FontWeight400 FontStyleNormal None (12 * bag.Factor) None None
    false 0 [].

Definition assertionFailed : string := "interface conversion".

(** One turn of [for k, v := range ts { switch k { ... } }]. A failed
    type assertion panics; a key without a case is logged and skipped
    ([bag.Logger.DPanicf] of the production logger does not panic). *)
Definition applySetting (k : SettingType) (v : Value) (l : locals)
    : outcome error locals :=
  if k =? SettingFontWeight then
    match v with
    | VInt t | VFontWeight t =>
        Ok (mkLocals t (l_fontstyle l) (l_fontfamily l) (l_fontsize l)
              (l_col l) (l_hyperlink l) (l_preserveWhitespace l)
              (l_yoffset l) (l_settingFontFeatures l))
    | _ => Ok l
    end
  else if k =? SettingFontFamily then
    match v with
    | VFontFamily ff =>
        Ok (mkLocals (l_fontweight l) (l_fontstyle l) ff (l_fontsize l)
              (l_col l) (l_hyperlink l) (l_preserveWhitespace l)
              (l_yoffset l) (l_settingFontFeatures l))
    | _ => Panic assertionFailed
    end
  else if k =? SettingSize then
    match v with
    | VScaledPoint sp =>
        Ok (mkLocals (l_fontweight l) (l_fontstyle l) (l_fontfamily l) sp
              (l_col l) (l_hyperlink l) (l_preserveWhitespace l)
              (l_yoffset l) (l_settingFontFeatures l))
    | _ => Panic assertionFailed
    end
  else if k =? SettingColor then
    let col :=
      match v with
      | VString t =>
          match GetColor t with Some c => Some c | None => l_col l end
      | VColor t => t
      | _ => l_col l
      end in
    Ok (mkLocals (l_fontweight l) (l_fontstyle l) (l_fontfamily l)
          (l_fontsize l) col (l_hyperlink l) (l_preserveWhitespace l)
          (l_yoffset l) (l_settingFontFeatures l))
  else if k =? SettingHyperlink then
    match v with
    | VHyperlink hl =>
        Ok (mkLocals (l_fontweight l) (l_fontstyle l) (l_fontfamily l)
              (l_fontsize l) (l_col l) (Some hl) (l_preserveWhitespace l)
              (l_yoffset l) (l_settingFontFeatures l))
    | _ => Panic assertionFailed
    end
  else if k =? SettingStyle then
    match v with
    | VFontStyle st =>
        Ok (mkLocals (l_fontweight l) st (l_fontfamily l) (l_fontsize l)
              (l_col l) (l_hyperlink l) (l_preserveWhitespace l)
              (l_yoffset l) (l_settingFontFeatures l))
    | _ => Panic assertionFailed
    end
  else if k =? SettingOpenTypeFeature then
    Ok (mkLocals (l_fontweight l) (l_fontstyle l) (l_fontfamily l)
          (l_fontsize l) (l_col l) (l_hyperlink l) (l_preserveWhitespace l)
          (l_yoffset l) (parseHarfbuzzFontFeatures v))
  else if (k =? SettingMarginTop) || (k =? SettingMarginRight)
          || (k =? SettingMarginBottom) || (k =? SettingMarginLeft) then
    Ok l
  else if (k =? SettingHAlign) || (k =? SettingLeading)
          || (k =? SettingIndentLeft) || (k =? SettingIndentLeftRows) then
    Ok l
  else if k =? SettingPreserveWhitespace then
    match v with
    | VBool b =>
        Ok (mkLocals (l_fontweight l) (l_fontstyle l) (l_fontfamily l)
              (l_fontsize l) (l_col l) (l_hyperlink l) b (l_yoffset l)
              (l_settingFontFeatures l))
    | _ => Panic assertionFailed
    end
  else if k =? SettingYOffset then
    match v with
    | VScaledPoint sp =>
        Ok (mkLocals (l_fontweight l) (l_fontstyle l) (l_fontfamily l)
              (l_fontsize l) (l_col l) (l_hyperlink l)
              (l_preserveWhitespace l) sp (l_settingFontFeatures l))
    | _ => Panic assertionFailed
    end
  else Ok l.

(** The whole loop, in the order in which the map yields its entries. *)
Definition resolveSettings (ts : TypesettingSettings) : outcome error locals :=
  map_fold
    (λ k v acc, match acc with Ok l => applySetting k v l | _ => acc end)
    (Ok initialLocals) ts.

(** The font cache of [BuildNodelistFromString] (the statements from
    [if fe.usedFonts[face] == nil] to the end of [if !found]): the
    instance for [face] at [fontsize], and the document with the cache
    and the fonts as the statements leave them. *)
Definition acquireFont (face : nat) (fontsize : bag.ScaledPoint)
    (fe : Document) : nat * Document :=
  let uf := usedFonts fe in
  (* if fe.usedFonts[face] == nil { fe.usedFonts = make(...) } *)
  let uf := match uf !! face with None => ∅ | Some _ => uf end in
  (* if fe.usedFonts[face][fontsize] == nil { fe.usedFonts[face] = make(...) } *)
  let uf :=
    match uf !! face ≫= (λ bySize, bySize !! fontsize) with
    | None => <[face := ∅]> uf
    | Some _ => uf
    end in
  (* if fnt, found = fe.usedFonts[face][fontsize]; !found { ... } *)
  match uf !! face ≫= (λ bySize, bySize !! fontsize) with
  | Some fnt => (fnt, withFonts fe (fonts fe) uf)
  | None =>
      let fnt := length (fonts fe) in
      (fnt,
       withFonts fe (fonts fe ++ [CreateFont face fontsize])
         (<[face := <[fontsize := fnt]> (default ∅ (uf !! face))]> uf))
  end.

(** The variables of the node list under construction. *)
Record build : Type := mkBuild {
  b_head : option node.ptr;
  b_cur : option node.ptr;
  b_lastglue : option node.ptr;
  b_heap : node.Heap;
}.

(** [n := node.NewX(); ...; head = node.InsertAfter(head, cur, n);
    cur = n], with [lastglue] set as the caller says. *)
Definition append (c : node.Content) (lastglue : node.ptr -> option node.ptr)
    (b : build) : build :=
  let '(n, h) := node.New c (b_heap b) in
  let '(head, h) := node.InsertAfter (b_head b) (b_cur b) n h in
  mkBuild head (Some n) (lastglue n) h.

Definition space : string := " ".
Definition tab : string := String (ascii_of_nat 9) "".
Definition linefeed : string := String (ascii_of_nat 10) "".

Definition ruleOf (fnt : font.Font) : node.Content :=
  node.Rule (node.Rule.mk (font.Space fnt) 0 0).

Definition glueOf (fnt : font.Font) : node.Content :=
  node.Glue (node.Glue.mk (font.Space fnt) (font.SpaceStretch fnt)
               (font.SpaceShrink fnt) 0 0 node.GlueDefault).

Definition glyphOf (fnt : nat) (yoffset : bag.ScaledPoint) (r : font.Atom)
    : node.Content :=
  node.Glyph (node.Glyph.mk (Some fnt) (font.Components r) (font.Codepoint r)
                (font.Hyphenate r) (font.Advance r) (font.Height r)
                (font.Depth r) yoffset).

Definition kernOf (r : font.Atom) : node.Content :=
  node.Kern (node.Kern.mk (font.Kernafter r)).

(** The body of [for _, r := range atoms]. *)
Definition atomStep (fnt : nat) (fntv : font.Font) (preserveWhitespace : bool)
    (yoffset : bag.ScaledPoint) (r : font.Atom) (b : build)
    : outcome error build :=
  if font.IsSpace r then
    if preserveWhitespace then
      if String.eqb (font.Components r) space then
        Ok (append (ruleOf fntv) Some b)
      else if String.eqb (font.Components r) tab then
        Ok (append (ruleOf fntv) Some
              (append (ruleOf fntv) Some
                 (append (ruleOf fntv) Some
                    (append (ruleOf fntv) Some b))))
      else if String.eqb (font.Components r) linefeed then
        let '(head, cur, h) :=
          node.AppendLineEndAfter (b_head b) (b_cur b) (b_heap b) in
        Ok (mkBuild head cur cur h)
      else Panic "unhandled whitespace type"
    else
      match b_lastglue b with
      | None => Ok (append (glueOf fntv) Some b)
      | Some _ => Ok b
      end
  else
    let b := append (glyphOf fnt yoffset r) (λ _, None) b in
    if negb (font.Kernafter r =? 0) then
      Ok (append (kernOf r) (λ _, b_lastglue b) b)
    else Ok b.

Fixpoint atomLoop (fnt : nat) (fntv : font.Font) (preserveWhitespace : bool)
    (yoffset : bag.ScaledPoint) (atoms : list font.Atom) (b : build)
    : outcome error build :=
  match atoms with
  | [] => Ok b
  | r :: atoms' =>
      match atomStep fnt fntv preserveWhitespace yoffset r b with
      | Ok b' => atomLoop fnt fntv preserveWhitespace yoffset atoms' b'
      | other => other
      end
  end.

Definition hyperlinkStartOf (hl : Hyperlink) : node.Content :=
  node.StartStop
    (node.StartStop.mk node.ActionHyperlink None node.PDFOutputNone None
       (Some hl)).

Definition colStartOf (col : color.Color) : node.Content :=
  node.StartStop
    (node.StartStop.mk node.ActionNone None node.PDFOutputPage
       (Some (node.CallbackColor col)) None).

Definition colStopOf : node.Content :=
  node.StartStop
    (node.StartStop.mk node.ActionNone None node.PDFOutputPage
       (Some node.CallbackReset) None).

Definition stopOf (start : node.ptr) : node.Content :=
  node.StartStop
    (node.StartStop.mk node.ActionNone (Some start) node.PDFOutputNone None
       None).

(** The statements of [BuildNodelistFromString] from [var head, cur
    node.Node] to [return head, nil]. *)
Definition buildNodes (l : locals) (fnt : nat) (fntv : font.Font)
    (atoms : list font.Atom) (h : node.Heap)
    : outcome error (option node.ptr) * node.Heap :=
  let head : option node.ptr := None in
  (* if hasHyperlink { ... } *)
  let '(hyperlinkStart, head, h) :=
    match l_hyperlink l with
    | Some hl =>
        let '(n, h) := node.New (hyperlinkStartOf hl) h in
        let '(_, h) :=
          match head with
          | Some _ => node.InsertAfter head head n h
          | None => (head, h)
          end in
        (Some n, Some n, h)
    | None => (None, head, h)
    end in
  (* if col != nil { ... } *)
  let '(head, h) :=
    match l_col l with
    | Some col =>
        let '(colStart, h) := node.New (colStartOf col) h in
        let '(_, h) :=
          match head with
          | Some _ => node.InsertAfter head head colStart h
          | None => (head, h)
          end in
        (Some colStart, h)
    | None => (head, h)
    end in
  let b := mkBuild head head None h in
  match atomLoop fnt fntv (l_preserveWhitespace l) (l_yoffset l) atoms b with
  | Ok b =>
      (* if col != nil { ...; node.InsertAfter(head, cur, stop); cur = stop } *)
      let b :=
        match l_col l with
        | Some _ =>
            let '(stop, h) := node.New colStopOf (b_heap b) in
            let '(_, h) := node.InsertAfter (b_head b) (b_cur b) stop h in
            mkBuild (b_head b) (Some stop) (b_lastglue b) h
        | None => b
        end in
      (* if hasHyperlink { ... } *)
      let b :=
        match hyperlinkStart with
        | Some start => append (stopOf start) (λ _, b_lastglue b) b
        | None => b
        end in
      (Ok (b_head b), b_heap b)
  | Err e => (Err e, h)
  | Panic m => (Panic m, h)
  | Stuck m => (Stuck m, h)
  end.

(** [func (fe *Document) BuildNodelistFromString(ts TypesettingSettings,
    str string) (node.Node, error)] *)
Definition BuildNodelistFromString (ts : TypesettingSettings) (str : string)
    (fe : Document) : outcome error (option node.ptr) * Document :=
  let fe := recordRun fe ts str in
  match resolveSettings ts with
  | Ok l =>
      match l_fontfamily l with
      | None => (Panic "nil pointer dereference", fe)
      | Some ff =>
          match GetFontSource ff (l_fontweight l) (l_fontstyle l) with
          | Ok fs =>
              let fontsize :=
                if negb (PrimFloat.eqb (SizeAdjust fs) 0) then
                  bag.ScaledPointFromFloat
                    (bag.ToPT (l_fontsize l) * (1 - SizeAdjust fs))%float
                else Some (l_fontsize l) in
              match fontsize with
              | None => (Stuck "float64 out of the range of int", fe)
              | Some fontsize =>
                  let fontfeatures :=
                    DefaultFeatures fe
                    ++ parseHarfbuzzFontFeatures (VStrings (FontFeatures fs))
                    ++ l_settingFontFeatures l in
                  match LoadFace fs with
                  | inl e => (Err e, fe)
                  | inr face =>
                      let '(fnt, fe) := acquireFont face fontsize fe in
                      match fonts fe !! fnt with
                      | None => (Panic "nil pointer dereference", fe)
                      | Some fntv =>
                          let atoms := Shape fntv str fontfeatures in
                          let '(r, h) :=
                            buildNodes l fnt fntv atoms (heap fe) in
                          (r, withHeap fe h)
                      end
                  end
              end
          | Err e => (Err e, fe)
          | Panic m => (Panic m, fe)
          | Stuck m => (Stuck m, fe)
          end
      end
  | Err e => (Err e, fe)
  | Panic m => (Panic m, fe)
  | Stuck m => (Stuck m, fe)
  end.

(** [for k, v := range ts.Settings { newSettings[k] = v }] on the
    fresh map [newSettings]. *)
Definition copySettings (settings : TypesettingSettings)
    : TypesettingSettings :=
  map_fold (λ k v (acc : TypesettingSettings), <[k := v]> acc) ∅ settings.

(** What [Mknodes] does to the settings of a nested [*Text] before it
    descends: [for k, v := range newSettings { if _, found :=
    t.Settings[k]; !found { t.Settings[k] = v } }] and then
    [delete(t.Settings, SettingHyperlink)]. *)
Definition inheritSettings (newSettings childSettings : TypesettingSettings)
    : TypesettingSettings :=
  delete SettingHyperlink
    (map_fold
       (λ k v (child : TypesettingSettings),
          match child !! k with
          | Some _ => child
          | None => <[k := v]> child
          end)
       childSettings newSettings).

(** The variables of the loop of [Mknodes]. *)
Record mkstate : Type := mkMkstate {
  m_head : option node.ptr;
  m_tail : option node.ptr;
  m_hyperlinkStartNode : option node.ptr;
  m_hyperlinkDest : string;
}.

(** [endHL := node.NewStartStop(); ...; node.InsertAfter(head, tail,
    endHL); tail = endHL]: the head that [InsertAfter] returns is
    dropped. *)
Definition closeHyperlink (start : node.ptr) (m : mkstate) (fe : Document)
    : mkstate * Document :=
  let '(endHL, h) := node.New (stopOf start) (heap fe) in
  let '(_, h) := node.InsertAfter (m_head m) (m_tail m) endHL h in
  (mkMkstate (m_head m) (Some endHL) None (m_hyperlinkDest m), withHeap fe h).

(** The hyperlink bookkeeping of the [case *Text] before the settings
    are merged. *)
Definition openHyperlink (childSettings : TypesettingSettings) (m : mkstate)
    (fe : Document) : outcome error (mkstate * Document) :=
  match m_hyperlinkStartNode m with
  | None =>
      match childSettings !! SettingHyperlink with
      | Some (VHyperlink hl) =>
          let '(startHL, h) := node.New (hyperlinkStartOf hl) (heap fe) in
          let '(head, h) := node.InsertAfter (m_head m) (m_tail m) startHL h in
          Ok (mkMkstate head (Some startHL) (Some startHL) (URI hl),
              withHeap fe h)
      | Some _ => Panic assertionFailed
      | None => Ok (m, fe)
      end
  | Some _ =>
      match childSettings !! SettingHyperlink with
      | Some (VHyperlink _) | None => Ok (m, fe)
      | Some _ => Panic assertionFailed
      end
  end.

(** What a call of [Mknodes] gives: head and tail or an error, the items
    of the span as the call leaves them, and the document. *)
Definition mkresult : Type :=
  outcome error (option node.ptr * option node.ptr) * list Item * Document.

Section Loop.

(** The recursive call [fe.Mknodes(t)], on [t] with the settings the
    loop has just written into it. *)
Variable recurse : TypesettingSettings -> Text -> Document -> mkresult.
Variable newSettings : TypesettingSettings.

(** [for _, itm := range ts.Items { switch t := itm.(type) { ... } }]
    and the statements behind the loop. *)
Fixpoint mkloop (items : list Item) (m : mkstate) (fe : Document)
    {struct items} : mkresult :=
  match items with
  | [] =>
      let '(m, fe) :=
        match m_hyperlinkStartNode m with
        | Some start => closeHyperlink start m fe
        | None => (m, fe)
        end in
      (Ok (m_head m, m_tail m), [], fe)
  | itm :: rest =>
      match itm with
      | ItemString t =>
          let '(m, fe) :=
            match m_hyperlinkStartNode m with
            | Some start => closeHyperlink start m fe
            | None => (m, fe)
            end in
          match BuildNodelistFromString newSettings t fe with
          | (Ok None, fe) =>
              let '(r, rest', fe) := mkloop rest m fe in
              (r, itm :: rest', fe)
          | (Ok (Some nl), fe) =>
              let '(head, h) :=
                node.InsertAfter (m_head m) (m_tail m) nl (heap fe) in
              match node.Tail h nl with
              | Some tail =>
                  let m := mkMkstate head (Some tail)
                             (m_hyperlinkStartNode m) (m_hyperlinkDest m) in
                  let '(r, rest', fe) := mkloop rest m (withHeap fe h) in
                  (r, itm :: rest', fe)
              | None =>
                  (Stuck "cyclic node list", itm :: rest, withHeap fe h)
              end
          | (Err e, fe) => (Err e, itm :: rest, fe)
          | (Panic msg, fe) => (Panic msg, itm :: rest, fe)
          | (Stuck msg, fe) => (Stuck msg, itm :: rest, fe)
          end
      | ItemText t =>
          match openHyperlink (Settings t) m fe with
          | Ok (m, fe) =>
              let childSettings :=
                inheritSettings newSettings (Settings t) in
              match recurse childSettings t fe with
              | (Ok (nl, tl), childItems, fe) =>
                  let '(m, fe) :=
                    match nl with
                    | Some n =>
                        let '(head, h) :=
                          node.InsertAfter (m_head m) (m_tail m) n
                            (heap fe) in
                        (mkMkstate head tl (m_hyperlinkStartNode m)
                           (m_hyperlinkDest m), withHeap fe h)
                    | None => (m, fe)
                    end in
                  let '(r, rest', fe) := mkloop rest m fe in
                  (r, ItemText (mkText childSettings childItems) :: rest',
                   fe)
              | (Err e, childItems, fe) =>
                  (Err e,
                   ItemText (mkText childSettings childItems) :: rest, fe)
              | (Panic msg, childItems, fe) =>
                  (Panic msg,
                   ItemText (mkText childSettings childItems) :: rest, fe)
              | (Stuck msg, childItems, fe) =>
                  (Stuck msg,
                   ItemText (mkText childSettings childItems) :: rest, fe)
              end
          | Err e => (Err e, itm :: rest, fe)
          | Panic msg => (Panic msg, itm :: rest, fe)
          | Stuck msg => (Stuck msg, itm :: rest, fe)
          end
      | ItemNode t =>
          let '(head, h) :=
            node.InsertAfter (m_head m) (m_tail m) t (heap fe) in
          let m := mkMkstate head (Some t) (m_hyperlinkStartNode m)
                     (m_hyperlinkDest m) in
          let '(r, rest', fe) := mkloop rest m (withHeap fe h) in
          (r, itm :: rest', fe)
      | ItemOther _ =>
          let '(r, rest', fe) := mkloop rest m fe in
          (r, itm :: rest', fe)
      end
  end.

End Loop.

(** [func (fe *Document) Mknodes(ts *Text) (head node.Node, tail
    node.Node, err error)], run on the span [ts] when its [Settings]
    field holds [settings] (the caller may have written into it).  The
    call writes into the settings of the nested spans: besides the head
    and the tail it gives the items of [ts] as they are when it
    returns. *)
Fixpoint mknodes (settings : TypesettingSettings) (ts : Text)
    (fe : Document) {struct ts} : mkresult :=
  match ts with
  | mkText _ [] => (Ok (None, None), [], fe)
  | mkText _ items =>
      mkloop mknodes (copySettings settings) items
        (mkMkstate None None None "") fe
  end.

Definition Mknodes (ts : Text) (fe : Document)
    : outcome error (option node.ptr * option node.ptr) * Text * Document :=
  let '(r, items, fe) := mknodes (Settings ts) ts fe in
  (r, mkText (Settings ts) items, fe).

Definition fillGlue (subtype : node.GlueSubtype) : node.Content :=
  node.Glue (node.Glue.mk 0 bag.Factor 0 3 0 subtype).

(** The paragraph [FormatParagraph] starts from: the language of the
    document, the width, and the alignment of the span, if it has one. *)
Definition newParagraph (te : Text) (hsize : bag.ScaledPoint) (fe : Document)
    : outcome error paragraph :=
  let p := mkParagraph HAlignDefault None 0 hsize 0 0 (DefaultLanguage fe) 0 in
  match Settings te !! SettingHAlign with
  | Some (VHAlign a) => Ok (HorizontalAlign a p)
  | Some VNil => Ok (HorizontalAlign HAlignDefault p)
  | Some _ => Panic assertionFailed
  | None => Ok p
  end.

(** [for _, opt := range opts { opt(p) }] *)
Definition applyOptions (opts : list TypesettingOption) (p : paragraph)
    : paragraph :=
  fold_left (λ p (opt : TypesettingOption), opt p) opts p.

(** [if p.fontsize != 0 { te.Settings[SettingSize] = p.fontsize }] and
    [if p.fontfamily != nil { te.Settings[SettingFontFamily] =
    p.fontfamily }] *)
Definition writeOptions (p : paragraph) (settings : TypesettingSettings)
    : TypesettingSettings :=
  let settings :=
    if negb (fontsize p =? 0)
    then <[SettingSize := VScaledPoint (fontsize p)]> settings
    else settings in
  match fontfamily p with
  | Some ff => <[SettingFontFamily := VFontFamily (Some ff)]> settings
  | None => settings
  end.

(** [func (fe *Document) FormatParagraph(te *Text, hsize bag.ScaledPoint,
    opts ...TypesettingOption)]: the box and the breakpoints or an error,
    the span [te] as the call leaves it, and the document. *)
Definition FormatParagraph (te : Text) (hsize : bag.ScaledPoint)
    (opts : list TypesettingOption) (fe : Document)
    : outcome error (option node.ptr * list Breakpoint) * Text * Document :=
  match Items te with
  | [] =>
      let '(g, h) := node.New (node.Glue node.Glue.zero) (heap fe) in
      let h :=
        node.SetAttributes g [("origin", "empty list in FormatParagraph")] h in
      let '(v, h) := Vpack h g in
      (Ok (Some v, []), te, withHeap fe h)
  | _ :: _ =>
      match newParagraph te hsize fe with
      | Ok p =>
          let p := applyOptions opts p in
          let settings := writeOptions p (Settings te) in
          match mknodes settings te fe with
          | (Ok (hlist, tail), items, fe) =>
              let te := mkText settings items in
              let h := Hyphenate (heap fe) hlist (language p) in
              let '(_, _, h) := node.AppendLineEndAfter hlist tail h in
              let lineHeight :=
                if leading p =? 0 then
                  match settings !! SettingLeading with
                  | Some (VScaledPoint l) => Ok l
                  | Some _ => Panic assertionFailed
                  | None => Ok (Z.quot (bag.wrap (fontsize p * 120)) 100)
                  end
                else Ok (leading p) in
              match lineHeight with
              | Ok lineHeight =>
                  let '(lineEndGlue, h) :=
                    match alignment p with
                    | HAlignLeft | HAlignCenter =>
                        let '(lg, h) :=
                          node.New (fillGlue node.GlueLineEnd) h in
                        (Some lg, h)
                    | _ => (None, h)
                    end in
                  let '(lineStartGlue, h) :=
                    match alignment p with
                    | HAlignRight | HAlignCenter =>
                        let '(lg, h) :=
                          node.New (fillGlue node.GlueLineStart) h in
                        (Some lg, h)
                    | _ => (None, h)
                    end in
                  let ls :=
                    mkLinebreakSettings (frontend.hsize p) (indentLeft p)
                      (indentLeftRows p) lineHeight lineStartGlue
                      lineEndGlue in
                  let '(vlist, info, h) := Linebreak h hlist ls in
                  (Ok (vlist, info), te, withHeap fe h)
              | Err e => (Err e, te, withHeap fe h)
              | Panic msg => (Panic msg, te, withHeap fe h)
              | Stuck msg => (Stuck msg, te, withHeap fe h)
              end
          | (Err e, items, fe) => (Err e, mkText settings items, fe)
          | (Panic msg, items, fe) => (Panic msg, mkText settings items, fe)
          | (Stuck msg, items, fe) => (Stuck msg, mkText settings items, fe)
          end
      | Err e => (Err e, te, fe)
      | Panic msg => (Panic msg, te, fe)
      | Stuck msg => (Stuck msg, te, fe)
      end
  end.

End Compiler.

End frontend.

(** ** A small instance of the collaborators and example inputs

    A shaper that turns every character into one atom (the blank, the tab
    and the line feed into space atoms), a loader that identifies a face by
    the index of its source, fonts whose space metrics are fractions of the
    size, and a colour table with one colour. *)

Module Examples.

Import frontend.

Definition isBlank (c : ascii) : bool :=
  let n := nat_of_ascii c in ((n =? 32) || (n =? 9) || (n =? 10))%nat.

Fixpoint shapeChars (size : bag.ScaledPoint) (s : string) : list font.Atom :=
  match s with
  | EmptyString => []
  | String c s' =>
      font.mkAtom (isBlank c) (String c "") (Z.of_nat (nat_of_ascii c))
        (size / 2) size 0 0 false
      :: shapeChars size s'
  end.

Definition red : color.Color := color.mkColor "1 0 0 rg".

#[export] Instance collaborators : Externals := {|
  Feature := string;
  ParseFeature := λ s, s;
  GetColor := λ name, if String.eqb name "red" then Some red else None;
  LoadFace := λ fs, inr (Z.to_nat (Index fs));
  CreateFont := λ face size, font.mkFont face size (size / 3) (size / 6) (size / 9);
  Shape := λ fnt str _, shapeChars (font.Size fnt) str;
  Vpack := λ h n, node.New (node.VList (node.VList.mk 0 0 0 (Some n))) h;
  Hyphenate := λ h _ _, h;
  Breakpoint := unit;
  Linebreak := λ h head _, let '(v, h) := node.New (node.VList (node.VList.mk 0 0 0 head)) h in
                           (Some v, [], h);
|}.

Definition regular : FontSource := mkFontSource "regular" [] "regular.otf" 0 0.
Definition bold : FontSource := mkFontSource "bold" [] "bold.otf" 1 0.

(** A family that declares the weights 400 and 700, both upright. *)
Definition family : FontFamily :=
  AddMember
    (AddMember (mkFontFamily 0 "text" None) (Some regular) 400 FontStyleNormal)
    (Some bold) 700 FontStyleNormal.

Definition emptyDocument : Document := mkDocument [] [] ∅ [] None [].

Definition example_com : Hyperlink := mkHyperlink "https://example.com".
Definition example_org : Hyperlink := mkHyperlink "https://example.org".

Definition baseSettings : TypesettingSettings :=
  {[ SettingFontFamily := VFontFamily (Some family) ]}.

(** The text "A" with a colour and a hyperlink on its span. *)
Definition coloredLink : Text :=
  mkText
    (<[SettingColor := VString "red"]>
       (<[SettingHyperlink := VHyperlink example_com]> baseSettings))
    [ItemString "A"].

(** Two nested spans in a row, each with a hyperlink of its own. *)
Definition twoLinks : Text :=
  mkText baseSettings
    [ ItemText (mkText {[ SettingHyperlink := VHyperlink example_com ]}
                  [ItemString "A"]);
      ItemText (mkText {[ SettingHyperlink := VHyperlink example_org ]}
                  [ItemString "B"]) ].

Definition atSize (size : bag.ScaledPoint) : TypesettingSettings :=
  <[SettingSize := VScaledPoint size]> baseSettings.

(** Three text runs in the same family, at 10pt, at 12pt and at 10pt
    again: the results of the first and of the third run and the document
    after the third. *)
Definition threeRuns
    : outcome error (option node.ptr) * outcome error (option node.ptr)
      * Document * Document :=
  let '(r1, fe1) :=
    BuildNodelistFromString (atSize (10 * bag.Factor)) "a" emptyDocument in
  let '(_, fe2) :=
    BuildNodelistFromString (atSize (12 * bag.Factor)) "a" fe1 in
  let '(r3, fe3) :=
    BuildNodelistFromString (atSize (10 * bag.Factor)) "a" fe2 in
  (r1, r3, fe1, fe3).

(** A span with one nested span that carries a hyperlink; compiled once,
    and the span it leaves compiled once more. *)
Definition linkedChild : Text :=
  mkText baseSettings
    [ ItemText (mkText {[ SettingHyperlink := VHyperlink example_com ]}
                  [ItemString "A"]) ].

Definition compiledTwice : Text * Document * Document :=
  let '(_, t1, fe1) := Mknodes linkedChild emptyDocument in
  let '(_, _, fe2) := Mknodes t1 fe1 in
  (t1, fe1, fe2).

(** The hyperlink setting of the first item of a span, when that item is
    a nested span. *)
Definition firstSpanHyperlink (t : Text) : option Value :=
  match Items t with
  | ItemText c :: _ => Settings c !! SettingHyperlink
  | _ => None
  end.

(** The text run "A  B", with two blanks, compiled on an empty document. *)
Definition spacedRun : outcome error (option node.ptr) * Document :=
  BuildNodelistFromString baseSettings "A  B" emptyDocument.

(** The font instance a glyph node refers to. *)
Definition fontOfNode (h : node.Heap) (n : node.ptr) : option nat :=
  match node.contentOf h n with
  | Some (node.Glyph g) => node.Glyph.Font g
  | _ => None
  end.

End Examples.

(** ** Notions the statements use *)

Module Spec.

Import frontend.

(** The family [ff] declares a member at exactly this weight and style. *)
Definition declares (ff : FontFamily) (weight : Z) (style : FontStyle) : Prop :=
  exists fm byStyle fs,
    familyMember ff = Some fm /\ fm !! weight = Some byStyle
    /\ byStyle !! style = Some (Some fs).

(** What a nested span inherits: the keys of the enclosing scope it does
    not define itself, and never the hyperlink. *)
Definition inherited (parent child : TypesettingSettings)
    : TypesettingSettings :=
  delete SettingHyperlink (child ∪ parent).

(** The items of the span [ts] after a compile in which the span itself
    holds [settings]: every nested span, at every depth, holds what it
    inherits from the span around it. *)
Fixpoint inheritAll (settings : TypesettingSettings) (ts : Text) : list Item :=
  match ts with
  | mkText _ items =>
      map (λ itm,
             match itm with
             | ItemText t =>
                 ItemText
                   (mkText (inherited settings (Settings t))
                      (inheritAll (inherited settings (Settings t)) t))
             | _ => itm
             end) items
  end.

Definition inheritTree (settings : TypesettingSettings) (ts : Text) : Text :=
  mkText settings (inheritAll settings ts).

(** The span reached from [t] by descending into the item [i] for each
    index [i] of the path. *)
Fixpoint subspan (path : list nat) (t : Text) : option Text :=
  match path with
  | [] => Some t
  | i :: path' =>
      match Items t !! i with
      | Some (ItemText c) => subspan path' c
      | _ => None
      end
  end.

(** The text runs of a tree in the order of the compile, each with the
    settings of the span it is an item of. *)
Fixpoint runs (t : Text) : list (TypesettingSettings * string) :=
  match t with
  | mkText settings items =>
      flat_map (λ itm,
                  match itm with
                  | ItemString s => [(settings, s)]
                  | ItemText c => runs c
                  | _ => []
                  end) items
  end.

(** The nodes of an atom that is not a space: the glyph, and the kern
    behind it when the atom has one. *)
Definition glyphNodes (fnt : nat) (yoffset : bag.ScaledPoint) (r : font.Atom)
    : list node.Content :=
  glyphOf fnt yoffset r
  :: (if negb (font.Kernafter r =? 0) then [kernOf r] else []).

(** A text run cut into its maximal runs of consecutive space atoms and
    its other atoms. *)
Inductive segment : Type :=
| SpaceRun (first : font.Atom) (more : list font.Atom)
| GlyphAtom (r : font.Atom).

Fixpoint segments (atoms : list font.Atom) : list segment :=
  match atoms with
  | [] => []
  | r :: atoms' =>
      if font.IsSpace r then
        match segments atoms' with
        | SpaceRun r' more :: segs => SpaceRun r (r' :: more) :: segs
        | segs => SpaceRun r [] :: segs
        end
      else GlyphAtom r :: segments atoms'
  end.

Definition atomsOf (seg : segment) : list font.Atom :=
  match seg with
  | SpaceRun r more => r :: more
  | GlyphAtom r => [r]
  end.

(** The nodes of a text run under the collapsing policy: one glue for each
    maximal run of space atoms. *)
Definition collapsedNodes (fnt : nat) (fntv : font.Font)
    (yoffset : bag.ScaledPoint) (atoms : list font.Atom) : list node.Content :=
  flat_map (λ seg,
              match seg with
              | SpaceRun _ _ => [glueOf fntv]
              | GlyphAtom r => glyphNodes fnt yoffset r
              end) (segments atoms).

(** The nodes of one atom under the preserving policy: a rule for a blank,
    four rules for a tab, the line end for a line feed; no nodes are
    defined for another space atom. *)
Definition preservedAtom (fnt : nat) (fntv : font.Font)
    (yoffset : bag.ScaledPoint) (r : font.Atom) : option (list node.Content) :=
  if font.IsSpace r then
    if String.eqb (font.Components r) space then Some [ruleOf fntv]
    else if String.eqb (font.Components r) tab then
      Some [ruleOf fntv; ruleOf fntv; ruleOf fntv; ruleOf fntv]
    else if String.eqb (font.Components r) linefeed then Some node.lineEnd
    else None
  else Some (glyphNodes fnt yoffset r).

Fixpoint preservedNodes (fnt : nat) (fntv : font.Font)
    (yoffset : bag.ScaledPoint) (atoms : list font.Atom)
    : option (list node.Content) :=
  match atoms with
  | [] => Some []
  | r :: atoms' =>
      match preservedAtom fnt fntv yoffset r,
            preservedNodes fnt fntv yoffset atoms' with
      | Some ns, Some ns' => Some (ns ++ ns')
      | _, _ => None
      end
  end.

Definition isStartStop (c : node.Content) : Prop :=
  match c with node.StartStop _ => True | _ => False end.

(** The list under construction: [ids] are its nodes from the head on,
    [cs] their variants, and [b_cur] is the last of them. *)
Definition listOf (b : build) (ids : list nat) (cs : list node.Content)
    : Prop :=
  node.chain (b_heap b) (b_head b) ids
  /\ b_cur b = last ids
  /\ map (node.contentOf (b_heap b)) ids = map Some cs.

(** The nodes one turn of the loop over the atoms adds to the list, and
    whether a glue is pending afterwards; [glued] says whether one is
    pending before. No nodes are defined where the loop panics. *)
Definition stepNodes (preserve : bool) (fnt : nat) (fntv : font.Font)
    (yoffset : bag.ScaledPoint) (glued : bool) (r : font.Atom)
    : option (list node.Content * bool) :=
  if font.IsSpace r then
    if preserve then
      match preservedAtom fnt fntv yoffset r with
      | Some ns => Some (ns, true)
      | None => None
      end
    else Some (if glued then [] else [glueOf fntv], true)
  else Some (glyphNodes fnt yoffset r, false).

Fixpoint emitted (preserve : bool) (fnt : nat) (fntv : font.Font)
    (yoffset : bag.ScaledPoint) (glued : bool) (atoms : list font.Atom)
    : option (list node.Content) :=
  match atoms with
  | [] => Some []
  | r :: atoms' =>
      match stepNodes preserve fnt fntv yoffset glued r with
      | Some (ns, glued') =>
          match emitted preserve fnt fntv yoffset glued' atoms' with
          | Some ns' => Some (ns ++ ns')
          | None => None
          end
      | None => None
      end
  end.

Definition pending (lastglue : option nat) : bool :=
  match lastglue with Some _ => true | None => false end.

(** What a successful call of [Mknodes] on a span leaves behind: the items
    it gives and the history of the document. *)
Section Effect.

Context {ext : Externals}.

Definition mknodes_effect (t : Text) : Prop :=
  forall settings fe r items' fe',
    mknodes settings t fe = (Ok r, items', fe') ->
    items' = inheritAll settings t
    /\ compiledRuns fe' = compiledRuns fe ++ runs (mkText settings items').

End Effect.

Section View.

Context {ext : Externals}.

(** The values the loop over the settings leaves in the local variables of
    [BuildNodelistFromString], read off the map key by key. *)
Definition settingsView (ts : TypesettingSettings) : locals :=
  mkLocals
    (match ts !! SettingFontWeight with
     | Some (VInt t) | Some (VFontWeight t) => t
     | _ => FontWeight400
     end)
    (match ts !! SettingStyle with
     | Some (VFontStyle st) => st
     | _ => FontStyleNormal
     end)
    (match ts !! SettingFontFamily with
     | Some (VFontFamily ff) => ff
     | _ => None
     end)
    (match ts !! SettingSize with
     | Some (VScaledPoint sp) => sp
     | _ => 12 * bag.Factor
     end)
    (match ts !! SettingColor with
     | Some (VString t) => GetColor t
     | Some (VColor c) => c
     | _ => None
     end)
    (match ts !! SettingHyperlink with
     | Some (VHyperlink hl) => Some hl
     | _ => None
     end)
    (match ts !! SettingPreserveWhitespace with
     | Some (VBool b) => b
     | _ => false
     end)
    (match ts !! SettingYOffset with
     | Some (VScaledPoint sp) => sp
     | _ => 0
     end)
    (match ts !! SettingOpenTypeFeature with
     | Some v => parseHarfbuzzFontFeatures v
     | None => []
     end).

(** The node list of a text run that [BuildNodelistFromString] has
    compiled from [ts] and [str] on the document [fe], returning [head] and
    leaving [fe']: between the start and stop markers of the colour and of
    the hyperlink stand the nodes of the shaped atoms, under the policy of
    [SettingPreserveWhitespace]. *)
Definition textRunNodes (ts : TypesettingSettings) (str : string)
    (fe : Document) (head : option nat) (fe' : Document) : Prop :=
  exists ff fs fnt fntv ids opening closing body,
    let l := settingsView ts in
    let atoms :=
      Shape fntv str
        (DefaultFeatures fe
         ++ parseHarfbuzzFontFeatures (VStrings (FontFeatures fs))
         ++ l_settingFontFeatures l) in
    l_fontfamily l = Some ff
    /\ GetFontSource ff (l_fontweight l) (l_fontstyle l) = Ok fs
    /\ fonts fe' !! fnt = Some fntv
    /\ node.chain (heap fe') head ids
    /\ map (node.contentOf (heap fe')) ids
       = map Some (opening ++ body ++ closing)
    /\ Forall isStartStop opening
    /\ Forall isStartStop closing
    /\ match ts !! SettingPreserveWhitespace with
       | Some (VBool true) =>
           preservedNodes fnt fntv (l_yoffset l) atoms = Some body
       | _ => body = collapsedNodes fnt fntv (l_yoffset l) atoms
       end.

End View.

End Spec.

(** * Properties of the unit system *)

Module BagFacts.

Import bag.

#[local] Arguments String.append !s1 s2 : simpl nomatch.
#[local] Arguments Ascii.eqb !a !b : simpl nomatch.

Lemma append_assoc_char (g : string) (c : ascii) (s : string) :
  ((g ++ String c "") ++ s)%string = (g ++ String c s)%string.
Proof. induction g as [|a g IH]; simpl; [reflexivity | f_equal; exact IH]. Qed.

Lemma append_empty_r (s : string) : (s ++ "")%string = s.
Proof. induction s as [|a s IH]; simpl; [reflexivity | f_equal; exact IH]. Qed.

(** [unitAt] looks at no more than the first two characters. *)
Lemma unitAt_two (a b : ascii) (s s' : string) :
  unitAt (String a (String b s)) = unitAt (String a (String b s')).
Proof. reflexivity. Qed.

(** The scan steps over a stretch without unit token and without line
    feed, and collects it into the first group. *)
Lemma scan_noUnitBefore (num rest g : string) :
  noUnitBefore num rest = true ->
  scan 0 g (num ++ rest) = scan 0 (g ++ num) rest.
Proof.
  revert g. induction num as [|c num IH]; intros g H; simpl in *.
  - now rewrite append_empty_r.
  - destruct (unitAt (String c (num ++ rest))) eqn:Hu; [discriminate|].
    apply andb_true_iff in H as [Hc Hn].
    destruct (Ascii.eqb c newline); [discriminate|].
    rewrite IH by assumption. now rewrite append_assoc_char.
Qed.

(** Behind the last unit token the scan finds no further match. *)
Lemma scan_unitFree (t g : string) :
  unitFree t = true -> scan 0 g t = [].
Proof.
  revert g. induction t as [|c t IH]; intros g H; simpl in *; [reflexivity|].
  destruct (unitAt (String c t)); [discriminate|].
  destruct (Ascii.eqb c newline); now apply IH.
Qed.

Lemma unitFree_not_m (t : string) :
  unitFree t = true -> hasPrefix "m" t = false.
Proof.
  destruct t as [|c t]; [reflexivity|]. intros H. simpl in H.
  destruct (unitAt (String c t)) eqn:Hu; [discriminate|].
  simpl. destruct (Ascii.eqb "m" c) eqn:Hc; [|reflexivity].
  exfalso. apply Ascii.eqb_eq in Hc as <-.
  revert Hu. unfold unitAt, unitTokens, firstPrefix. simpl.
  destruct t as [|d t]; simpl; [discriminate|].
  destruct (Ascii.eqb "m" d); discriminate.
Qed.

Lemma scan_0_cons (g : string) (c : ascii) (s : string) :
  scan 0 g (String c s) =
  match unitAt (String c s) with
  | Some u => [(g ++ u)%string; g; u] :: scan (String.length u - 1) "" s
  | None =>
      if Ascii.eqb c newline then scan 0 "" s
      else scan 0 (g ++ String c "")%string s
  end.
Proof. reflexivity. Qed.

Lemma unitAt_m (t : string) :
  hasPrefix "m" t = false -> unitAt (String "m" t) = Some "m".
Proof.
  intros Hm. unfold unitAt, unitTokens, firstPrefix.
  destruct t as [|c t]; [reflexivity|].
  simpl in *. rewrite andb_true_r in Hm. now rewrite Hm.
Qed.

(** At a unit token that is followed by text without unit token the scan
    reports one match and nothing else. *)
Lemma scan_unit (u t g : string) :
  In u unitTokens -> unitFree t = true ->
  scan 0 g (u ++ t) = [[(g ++ u)%string; g; u]].
Proof.
  intros Hu Ht. pose proof (unitFree_not_m t Ht) as Hm.
  unfold unitTokens in Hu. simpl in Hu.
  destruct Hu as [<-|[<-|[<-|[<-|[<-|[<-|[<-|[]]]]]]]].
  7: {
    change ("m" ++ t)%string with (String "m" t).
    rewrite scan_0_cons, (unitAt_m t Hm). simpl.
    f_equal. now apply scan_unitFree. }
  all: cbn [String.append]; rewrite scan_0_cons; cbn -[scan];
    match goal with
    | |- context [scan 1 "" (String ?c ?t')] =>
        change (scan 1 "" (String c t')) with (scan 0 "" t')
    end;
    now rewrite (scan_unitFree t "" Ht).
Qed.

Lemma FindAllStringSubmatch_one (num u t : string) :
  In u unitTokens -> noUnitBefore num (u ++ t) = true -> unitFree t = true ->
  FindAllStringSubmatch (num ++ u ++ t) = [[(num ++ u)%string; num; u]].
Proof.
  intros Hu Hn Ht. unfold FindAllStringSubmatch.
  rewrite scan_noUnitBefore by assumption. simpl.
  now apply scan_unit.
Qed.

(** On a unit token the switch of [Sp] takes one of its seven cases. *)
Lemma convert_unit (u : string) (l : float) :
  In u unitTokens -> exists f, convert u l = toScaledPoint f.
Proof.
  unfold unitTokens. simpl.
  intros [<-|[<-|[<-|[<-|[<-|[<-|[<-|[]]]]]]]]; unfold convert; simpl; eauto.
Qed.

Lemma toScaledPoint_no_error (f : float) (e : ConversionError) :
  toScaledPoint f <> SpErr e.
Proof. unfold toScaledPoint. destruct (int_of_float64 f); discriminate. Qed.

Lemma lower_ascii_idem (c : ascii) : lower_ascii (lower_ascii c) = lower_ascii c.
Proof. destruct c as [[] [] [] [] [] [] [] []]; vm_compute; reflexivity. Qed.

Lemma ToLower_idem (s : string) : ToLower (ToLower s) = ToLower s.
Proof.
  induction s as [|c s IH]; simpl; [reflexivity|].
  now rewrite lower_ascii_idem, IH.
Qed.

Lemma ToLower_app (a b : string) :
  ToLower (a ++ b) = (ToLower a ++ ToLower b)%string.
Proof. induction a as [|c a IH]; simpl; [reflexivity | now rewrite IH]. Qed.

Lemma ToLower_length (s : string) : String.length (ToLower s) = String.length s.
Proof. induction s as [|c s IH]; simpl; [reflexivity | now rewrite IH]. Qed.

Lemma append_inv_length (a a' b b' : string) :
  String.length a = String.length a' ->
  (a ++ b)%string = (a' ++ b')%string -> a = a' /\ b = b'.
Proof.
  revert a'. induction a as [|c a IH]; intros [|c' a'] Hl H; simpl in *;
    try discriminate.
  - now split.
  - injection H as -> H. injection Hl as Hl.
    destruct (IH a' Hl H) as [-> ->]. now split.
Qed.

(** A prefix of a lower-case text is in lower case. *)
Lemma ToLower_prefix (s a b : string) :
  ToLower s = (a ++ b)%string -> ToLower a = a.
Proof.
  intros H. pose proof (ToLower_idem s) as Hi.
  rewrite H, ToLower_app in Hi.
  apply append_inv_length in Hi as [Ha _]; [exact Ha | apply ToLower_length].
Qed.

(** [noUnitBefore] reads no more of the rest than its first character. *)
Lemma noUnitBefore_rest (num : string) (c : ascii) (r r' : string) :
  noUnitBefore num (String c r) = noUnitBefore num (String c r').
Proof.
  induction num as [|a num IH]; simpl; [reflexivity|].
  rewrite IH.
  destruct num as [|b num]; simpl;
    [rewrite (unitAt_two a c r r') | rewrite (unitAt_two a b _ (num ++ String c r'))];
    reflexivity.
Qed.

Lemma unit_nonempty (u : string) :
  In u unitTokens -> exists c r, u = String c r.
Proof.
  unfold unitTokens. simpl.
  intros [<-|[<-|[<-|[<-|[<-|[<-|[<-|[]]]]]]]]; eauto.
Qed.

(** [Sp] on a text that is a number, a unit token and a rest without unit
    token. *)
Lemma Sp_number_unit_rest (ParseFloat : string -> option float)
    (s num u t : string) (l : float) :
  ToLower s = (num ++ u ++ t)%string ->
  In u unitTokens ->
  noUnitBefore num (u ++ t) = true ->
  unitFree t = true ->
  ParseFloat num = Some l ->
  Sp ParseFloat s = convert u l.
Proof.
  intros Hs Hu Hn Ht Hl. unfold Sp. rewrite Hs.
  rewrite (FindAllStringSubmatch_one num u t Hu Hn Ht).
  cbn [length Nat.eqb negb]. now rewrite Hl.
Qed.




(** C6, as amended. The base unit is 1/65535 of a point: [Factor] is
    65535, ["1pt"] parses to 65535 and 65535 scaled points are 1.0 point. *)
Theorem scaled_point_is_65535th (ParseFloat : string -> option float) :
  ParseFloat "1" = Some 1%float ->
  Factor = 65535
  /\ Sp ParseFloat "1pt" = SpOk 65535
  /\ ToPT 65535 = 1%float.
Proof.
  intros H. split; [reflexivity|]. split; [|vm_compute; reflexivity].
  unfold Sp.
  replace (FindAllStringSubmatch (ToLower "1pt")) with [["1pt"; "1"; "pt"]]
    by (vm_compute; reflexivity).
  cbn [length Nat.eqb negb]. rewrite H. vm_compute. reflexivity.
Qed.

Lemma scaled_point_is_65535th_witness :
  parseFloatLit "1" = Some 1%float
  /\ Factor = 65535
  /\ Sp parseFloatLit "1pt" = SpOk 65535
  /\ ToPT 65535 = 1%float.
Proof.
  split; [reflexivity|].
  apply (scaled_point_is_65535th parseFloatLit). reflexivity.
Defined.

(** C6, as stated, fails: ["1pt"] does not parse to 65536, and 65536
    scaled points are not 1.0 point. *)
Lemma scaled_point_is_not_65536th :
  ~ (Sp parseFloatLit "1pt" = SpOk 65536 /\ ToPT 65536 = 1%float).
Proof. intros [H _]. vm_compute in H. discriminate. Qed.

Lemma ToPT_65536 : ToPT 65536 <> 1%float.
Proof.
  intros H. apply (f_equal Prim2SF) in H. vm_compute in H. discriminate.
Qed.

(** The exact conversions of an inch. *)
Lemma Sp_one_inch (ParseFloat : string -> option float) :
  ParseFloat "1" = Some 1%float ->
  Sp ParseFloat "1in" = SpOk (72 * Factor).
Proof.
  intros H. unfold Sp.
  replace (FindAllStringSubmatch (ToLower "1in")) with [["1in"; "1"; "in"]]
    by (vm_compute; reflexivity).
  cbn [length Nat.eqb negb]. rewrite H. vm_compute. reflexivity.
Qed.

Lemma Sp_254cm_is_one_inch (ParseFloat : string -> option float) :
  ParseFloat "1" = Some 1%float ->
  ParseFloat "2.54" = Some 2.54%float ->
  Sp ParseFloat "2.54cm" = Sp ParseFloat "1in".
Proof.
  intros H1 H2. rewrite (Sp_one_inch ParseFloat H1). unfold Sp.
  replace (FindAllStringSubmatch (ToLower "2.54cm"))
    with [["2.54cm"; "2.54"; "cm"]] by (vm_compute; reflexivity).
  cbn [length Nat.eqb negb]. rewrite H2. vm_compute. reflexivity.
Qed.

End BagFacts.

(** * Properties of the node arena *)

Module NodeFacts.

Import node.

Lemma length_SetNext (n : nat) (v : option nat) (h : Heap) :
  length (SetNext n v h) = length h.
Proof. unfold SetNext. apply length_alter. Qed.

Lemma length_SetPrev (n : nat) (v : option nat) (h : Heap) :
  length (SetPrev n v h) = length h.
Proof. unfold SetPrev. apply length_alter. Qed.

Lemma Next_SetNext_ne (i n : nat) (v : option nat) (h : Heap) :
  i ≠ n -> Next (SetNext n v h) i = Next h i.
Proof.
  intros Hne. unfold Next, SetNext.
  now rewrite list_lookup_alter_ne by congruence.
Qed.

Lemma Next_SetNext_eq (n : nat) (v : option nat) (h : Heap) :
  (n < length h)%nat -> Next (SetNext n v h) n = v.
Proof.
  intros Hlt. unfold Next, SetNext. rewrite list_lookup_alter_eq.
  destruct (lookup_lt_is_Some_2 h n Hlt) as [nd ->]. reflexivity.
Qed.

Lemma Next_SetPrev (i n : nat) (v : option nat) (h : Heap) :
  Next (SetPrev n v h) i = Next h i.
Proof.
  unfold Next, SetPrev. destruct (decide (i = n)) as [->|Hne].
  - rewrite list_lookup_alter_eq. destruct (h !! n); reflexivity.
  - now rewrite list_lookup_alter_ne by congruence.
Qed.

Lemma contentOf_SetNext (i n : nat) (v : option nat) (h : Heap) :
  contentOf (SetNext n v h) i = contentOf h i.
Proof.
  unfold contentOf, SetNext. destruct (decide (i = n)) as [->|Hne].
  - rewrite list_lookup_alter_eq. destruct (h !! n); reflexivity.
  - now rewrite list_lookup_alter_ne by congruence.
Qed.

Lemma contentOf_SetPrev (i n : nat) (v : option nat) (h : Heap) :
  contentOf (SetPrev n v h) i = contentOf h i.
Proof.
  unfold contentOf, SetPrev. destruct (decide (i = n)) as [->|Hne].
  - rewrite list_lookup_alter_eq. destruct (h !! n); reflexivity.
  - now rewrite list_lookup_alter_ne by congruence.
Qed.

(** A new node leaves the nodes before it as they are. *)
Lemma Next_New_old (c : Content) (h : Heap) (i : nat) :
  (i < length h)%nat -> Next (New c h).2 i = Next h i.
Proof. intros Hlt. unfold Next, New. cbn. now rewrite lookup_app_l. Qed.

Lemma Next_New_new (c : Content) (h : Heap) :
  Next (New c h).2 (New c h).1 = None.
Proof.
  unfold Next, New. cbn.
  rewrite lookup_app_r, Nat.sub_diag by lia. reflexivity.
Qed.

Lemma contentOf_New_old (c : Content) (h : Heap) (i : nat) :
  (i < length h)%nat -> contentOf (New c h).2 i = contentOf h i.
Proof. intros Hlt. unfold contentOf, New. cbn. now rewrite lookup_app_l. Qed.

Lemma contentOf_New_new (c : Content) (h : Heap) :
  contentOf (New c h).2 (New c h).1 = Some c.
Proof.
  unfold contentOf, New. cbn.
  rewrite lookup_app_r, Nat.sub_diag by lia. reflexivity.
Qed.

Lemma length_New (c : Content) (h : Heap) :
  length (New c h).2 = S (length h).
Proof. unfold New. cbn. rewrite length_app. cbn. lia. Qed.

(** ** Chains *)

Lemma chain_lt (h : Heap) (start : option nat) (ids : list nat) (i : nat) :
  chain h start ids -> In i ids -> (i < length h)%nat.
Proof.
  revert start. induction ids as [|j ids IH]; intros start Hc Hin; [easy|].
  destruct Hc as (_ & Hj & Hc). destruct Hin as [<-|Hin]; [exact Hj|].
  now apply (IH _ Hc).
Qed.

Lemma chain_head (h : Heap) (start : option nat) (ids : list nat) :
  chain h start ids -> start = head ids.
Proof. destruct ids; cbn; [easy | now intros [-> _]]. Qed.

(** The last node of a chain has no successor. *)
Lemma chain_last_next (h : Heap) (start : option nat) (ids : list nat)
    (c : nat) :
  chain h start (ids ++ [c]) -> Next h c = None.
Proof.
  revert start. induction ids as [|j ids IH]; intros start Hc; cbn in Hc.
  - now destruct Hc as (_ & _ & Hn).
  - destruct Hc as (_ & _ & Hc). now apply (IH _ Hc).
Qed.

(** A chain is the same chain in every arena that keeps its links. *)
Lemma chain_ext (h h' : Heap) (start : option nat) (ids : list nat) :
  chain h start ids ->
  (forall i, In i ids -> Next h' i = Next h i) ->
  (length h <= length h')%nat ->
  chain h' start ids.
Proof.
  revert start. induction ids as [|j ids IH]; intros start Hc Hn Hl; [easy|].
  destruct Hc as (-> & Hj & Hc). split; [reflexivity|]. split; [lia|].
  rewrite (Hn j) by now left. apply IH; [exact Hc | | exact Hl].
  intros i Hi. apply Hn. now right.
Qed.

(** Linking a node behind the last node of a chain makes the chain one
    node longer. *)
Lemma chain_snoc (h h' : Heap) (start : option nat) (ids : list nat)
    (c n : nat) :
  chain h start (ids ++ [c]) ->
  (forall i, i ≠ c -> (i < length h)%nat -> Next h' i = Next h i) ->
  Next h' c = Some n ->
  Next h' n = None ->
  (n < length h')%nat ->
  (length h <= length h')%nat ->
  chain h' start (ids ++ [c; n]).
Proof.
  intros Hc Hold Hcn Hn Hlt Hle. revert start Hc.
  induction ids as [|j ids IH]; intros start Hc; cbn in Hc |- *.
  - destruct Hc as (-> & Hj & _). split; [reflexivity|]. split; [lia|].
    rewrite Hcn. split; [reflexivity|]. split; assumption.
  - destruct Hc as (-> & Hj & Hc). split; [reflexivity|]. split; [lia|].
    assert (Hjc : j ≠ c).
    { intros ->. pose proof (chain_last_next _ _ _ _ Hc) as Hnone.
      rewrite Hnone in Hc. destruct ids; cbn in Hc; now destruct Hc. }
    rewrite (Hold j Hjc Hj). now apply IH.
Qed.

End NodeFacts.

(** * Properties of the font resolver and of the compiler *)

Module FrontendFacts.

Import frontend Spec.

Section Facts.

Context {ext : Externals}.

(** ** The loop over the settings *)

Lemma copySettings_id (settings : TypesettingSettings) :
  copySettings settings = settings.
Proof.
  unfold copySettings.
  apply (map_fold_weak_ind (λ r m, r = m)); [reflexivity|].
  intros i x m r _ ->. reflexivity.
Qed.

Ltac this_key Hi :=
  let Hx := fresh "Hx" in
  intros Hx; unfold settingsView in *;
  cbn [l_col l_fontweight l_fontstyle l_fontfamily l_fontsize l_hyperlink
       l_preserveWhitespace l_yoffset l_settingFontFeatures] in Hx;
  rewrite lookup_insert_eq, !lookup_insert_ne by discriminate;
  rewrite ?Hi in *;
  match goal with
  | x : Value |- _ =>
      destruct x; try discriminate; injection Hx as <-;
      rewrite ?Hi; try reflexivity
  end.

(** One turn of the loop keeps the local variables in step with the map. *)
Lemma applySetting_view (i : Z) (x : Value) (m : TypesettingSettings)
    (l' : locals) :
  m !! i = None ->
  applySetting i x (settingsView m) = Ok l' ->
  l' = settingsView (<[i := x]> m).
Proof.
  intros Hi. unfold applySetting.
  assert (Hother : ∀ l, Ok (E := error) (settingsView m) = Ok l ->
            i ≠ SettingFontWeight -> i ≠ SettingFontFamily ->
            i ≠ SettingSize -> i ≠ SettingColor -> i ≠ SettingHyperlink ->
            i ≠ SettingStyle -> i ≠ SettingOpenTypeFeature ->
            i ≠ SettingPreserveWhitespace -> i ≠ SettingYOffset ->
            l = settingsView (<[i := x]> m)).
  { intros l Hl. intros. injection Hl as <-. unfold settingsView.
    rewrite !lookup_insert_ne by assumption. reflexivity. }
  destruct (i =? SettingFontWeight) eqn:E1;
    [apply Z.eqb_eq in E1; subst i; this_key Hi | apply Z.eqb_neq in E1].
  destruct (i =? SettingFontFamily) eqn:E2;
    [apply Z.eqb_eq in E2; subst i; this_key Hi | apply Z.eqb_neq in E2].
  destruct (i =? SettingSize) eqn:E3;
    [apply Z.eqb_eq in E3; subst i; this_key Hi | apply Z.eqb_neq in E3].
  destruct (i =? SettingColor) eqn:E4;
    [apply Z.eqb_eq in E4; subst i; this_key Hi | apply Z.eqb_neq in E4].
  { destruct (GetColor s); reflexivity. }
  destruct (i =? SettingHyperlink) eqn:E5;
    [apply Z.eqb_eq in E5; subst i; this_key Hi | apply Z.eqb_neq in E5].
  destruct (i =? SettingStyle) eqn:E6;
    [apply Z.eqb_eq in E6; subst i; this_key Hi | apply Z.eqb_neq in E6].
  destruct (i =? SettingOpenTypeFeature) eqn:E7;
    [apply Z.eqb_eq in E7; subst i; this_key Hi | apply Z.eqb_neq in E7].
  destruct ((i =? SettingMarginTop) || (i =? SettingMarginRight)
            || (i =? SettingMarginBottom) || (i =? SettingMarginLeft)) eqn:E8.
  { intros Hx. apply Hother; try assumption;
      intros ->; vm_compute in E8; discriminate. }
  destruct ((i =? SettingHAlign) || (i =? SettingLeading)
            || (i =? SettingIndentLeft) || (i =? SettingIndentLeftRows)) eqn:E9.
  { intros Hx. apply Hother; try assumption;
      intros ->; vm_compute in E9; discriminate. }
  destruct (i =? SettingPreserveWhitespace) eqn:E10;
    [apply Z.eqb_eq in E10; subst i; this_key Hi | apply Z.eqb_neq in E10].
  destruct (i =? SettingYOffset) eqn:E11;
    [apply Z.eqb_eq in E11; subst i; this_key Hi | apply Z.eqb_neq in E11].
  intros Hx. now apply Hother.
Qed.

(** When the loop over the settings ends without a panic, the local
    variables hold what [settingsView] reads off the map. *)
Lemma resolveSettings_view (ts : TypesettingSettings) (l : locals) :
  resolveSettings ts = Ok l -> l = settingsView ts.
Proof.
  unfold resolveSettings. revert l.
  apply (map_fold_weak_ind
           (λ r m, ∀ l, r = Ok l -> l = settingsView m)).
  - intros l [= <-]. reflexivity.
  - intros i x m r Hi IH l H.
    destruct r as [l0| | |]; try discriminate.
    rewrite (IH l0 eq_refl) in H. now apply applySetting_view.
Qed.

(** ** Font resolution *)

(** Without a member at exactly the weight and the style there is no font
    source, only one of the two errors. *)
Lemma GetFontSource_miss (ff : FontFamily) (weight : Z) (style : Z) :
  ~ declares ff weight style ->
  GetFontSource ff weight style = Err ErrEmptyFF
  \/ GetFontSource ff weight style = Err ErrUnfulfilledFamilyRequest.
Proof.
  intros Hno. unfold GetFontSource.
  destruct (familyMember ff) as [fm|] eqn:Hfm; [|now left]. right.
  destruct (fm !! weight) as [byStyle|] eqn:Hw; [|reflexivity].
  destruct (byStyle !! style) as [[fs|]|] eqn:Hs; try reflexivity.
  exfalso. apply Hno. now exists fm, byStyle, fs.
Qed.

(** With a member at exactly the weight and the style, it is the answer. *)
Lemma GetFontSource_hit (ff : FontFamily) (weight : Z) (style : Z)
    (fs : FontSource) :
  GetFontSource ff weight style = Ok fs <->
  exists fm byStyle,
    familyMember ff = Some fm /\ fm !! weight = Some byStyle
    /\ byStyle !! style = Some (Some fs).
Proof.
  unfold GetFontSource. split.
  - destruct (familyMember ff) as [fm|]; [|discriminate].
    destruct (fm !! weight) as [byStyle|] eqn:Hw; [|discriminate].
    destruct (byStyle !! style) as [[fs'|]|] eqn:Hs; try discriminate.
    intros [= ->]. now exists fm, byStyle.
  - intros (fm & byStyle & -> & -> & ->). reflexivity.
Qed.

(** An error of the font resolver is the result of the text run. *)
Lemma BuildNodelistFromString_font_error (ts : TypesettingSettings)
    (str : string) (fe : Document) (l : locals) (ff : FontFamily) (e : error) :
  resolveSettings ts = Ok l ->
  l_fontfamily l = Some ff ->
  GetFontSource ff (l_fontweight l) (l_fontstyle l) = Err e ->
  BuildNodelistFromString ts str fe = (Err e, recordRun fe ts str).
Proof.
  intros Hl Hff He. unfold BuildNodelistFromString.
  now rewrite Hl, Hff, He.
Qed.

(** C1. When the family declares no member at exactly the requested
    weight and style (an empty family included), [GetFontSource] returns
    one of its two errors and no font source; [BuildNodelistFromString]
    returns that error for every settings map that resolves to the family,
    the weight and the style, and so does the loop of [Mknodes] at whatever
    point it reaches such a text run.  Weight 650 in the family that
    declares 400 and 700 is such a miss. *)
Theorem font_miss_fails_the_compile (ff : FontFamily) (weight : Z)
    (style : Z) :
  ~ declares ff weight style ->
  exists e,
    (e = ErrEmptyFF \/ e = ErrUnfulfilledFamilyRequest)
    /\ GetFontSource ff weight style = Err e
    /\ (forall ts str fe l,
          resolveSettings ts = Ok l -> l_fontfamily l = Some ff ->
          l_fontweight l = weight -> l_fontstyle l = style ->
          BuildNodelistFromString ts str fe = (Err e, recordRun fe ts str)
          /\ forall recurse rest m,
               (mkloop recurse ts (ItemString str :: rest) m fe).1.1 = Err e)
    /\ GetFontSource Examples.family 650 FontStyleNormal
       = Err ErrUnfulfilledFamilyRequest.
Proof.
  intros Hno.
  assert (He : exists e, (e = ErrEmptyFF \/ e = ErrUnfulfilledFamilyRequest)
                 /\ GetFontSource ff weight style = Err e).
  { destruct (GetFontSource_miss ff weight style Hno) as [H0|H0]; eauto. }
  destruct He as (e & Hcase & He). exists e.
  split; [exact Hcase|]. split; [exact He|]. split; [|reflexivity].
  intros ts str fe l Hl Hff <- <-.
  assert (Hb : forall fe0, BuildNodelistFromString ts str fe0
                           = (Err e, recordRun fe0 ts str)).
  { intros fe0. now apply (BuildNodelistFromString_font_error ts str fe0 l ff). }
  split; [apply Hb|].
  intros recurse rest m. cbn [mkloop].
  destruct (m_hyperlinkStartNode m) as [start|].
  - destruct (closeHyperlink start m fe) as [m' fe'] eqn:Hc.
    now rewrite Hb.
  - now rewrite Hb.
Qed.

(** ** Empty spans *)

(** C8. A span without items compiles to nothing and to no error:
    [Mknodes] returns a nil head, a nil tail and a nil error and leaves the
    span and the document as they are, and [FormatParagraph] returns a box
    and a nil error. *)
Theorem empty_items_compile_to_nothing (settings : TypesettingSettings)
    (fe : Document) :
  Mknodes (mkText settings []) fe = (Ok (None, None), mkText settings [], fe)
  /\ forall hsize opts,
       exists v fe',
         FormatParagraph (mkText settings []) hsize opts fe
         = (Ok (Some v, []), mkText settings [], fe').
Proof.
  split; [reflexivity|].
  intros hsize opts. unfold FormatParagraph. cbn [Items].
  destruct (node.New (node.Glue node.Glue.zero) (heap fe)) as [g h].
  destruct (Vpack _ g) as [v h'] eqn:Hv. eauto.
Qed.

(** ** What a compile does to the tree and which settings a run gets *)

(** Induction on a tree of spans: the nested spans of a span satisfy the
    property before the span does. *)
Fixpoint Text_nested_ind (P : Text -> Prop)
    (step : forall settings items,
        Forall (λ itm, match itm with ItemText t => P t | _ => True end) items ->
        P (mkText settings items))
    (t : Text) {struct t} : P t :=
  match t with
  | mkText settings items =>
      step settings items
        ((fix go (l : list Item)
            : Forall (λ itm, match itm with ItemText t => P t | _ => True end) l :=
            match l with
            | [] => @List.Forall_nil _ _
            | itm :: l' =>
                @List.Forall_cons _ _ itm l'
                  (match itm
                         return match itm with ItemText t => P t | _ => True end
                   with
                   | ItemText c => Text_nested_ind P step c
                   | _ => I
                   end)
                  (go l')
            end) items)
  end.

(** The merge loop of [Mknodes] computes what the span inherits. *)
Lemma inheritSettings_inherited (newSettings child : TypesettingSettings) :
  inheritSettings newSettings child = inherited newSettings child.
Proof.
  unfold inheritSettings, inherited. f_equal.
  apply (map_fold_weak_ind (λ r m, r = child ∪ m)).
  - now rewrite (right_id_L ∅ (∪)).
  - intros i x m r Hi ->.
    rewrite lookup_union_l by exact Hi.
    destruct (child !! i) as [y|] eqn:Hc.
    + apply map_eq. intros j. rewrite !lookup_union.
      destruct (decide (i = j)) as [<-|Hne].
      * now rewrite Hc, Hi, lookup_insert_eq.
      * now rewrite lookup_insert_ne.
    + now apply insert_union_r.
Qed.

Lemma lookup_map {A B : Type} (f : A -> B) (l : list A) (i : nat) :
  map f l !! i = f <$> (l !! i).
Proof.
  revert i. induction l as [|a l IH]; intros [|i]; simpl; auto.
Qed.

Lemma compiledRuns_withHeap (fe : Document) (h : node.Heap) :
  compiledRuns (withHeap fe h) = compiledRuns fe.
Proof. reflexivity. Qed.

(** A call of [BuildNodelistFromString] adds its arguments to the history,
    whatever it returns. *)
Lemma BuildNodelistFromString_runs (ts : TypesettingSettings) (str : string)
    (fe : Document) :
  compiledRuns (BuildNodelistFromString ts str fe).2
  = compiledRuns fe ++ [(ts, str)].
Proof.
  unfold BuildNodelistFromString.
  repeat match goal with
         | |- context [match ?x with _ => _ end] =>
             lazymatch x with
             | context [match _ with _ => _ end] => fail
             | _ => destruct x eqn:?
             end
         end; try reflexivity;
    repeat match goal with
           | Hx : acquireFont _ _ _ = _ |- _ =>
               unfold acquireFont in Hx;
               repeat match type of Hx with
                      | context [match ?x with _ => _ end] => destruct x
                      end;
               injection Hx as <- <-
           end; reflexivity.
Qed.

Lemma closeHyperlink_runs (start : nat) (m : mkstate) (fe : Document) :
  compiledRuns (closeHyperlink start m fe).2 = compiledRuns fe.
Proof.
  unfold closeHyperlink.
  destruct (node.New _ _) as [n h].
  destruct (node.InsertAfter _ _ _ _) as [hd h']. reflexivity.
Qed.

Lemma openHyperlink_runs (cs : TypesettingSettings) (m m' : mkstate)
    (fe fe' : Document) :
  openHyperlink cs m fe = Ok (m', fe') -> compiledRuns fe' = compiledRuns fe.
Proof.
  unfold openHyperlink.
  destruct (m_hyperlinkStartNode m); destruct (cs !! SettingHyperlink) as [[]|];
    try discriminate; try (intros [= <- <-]; reflexivity).
  destruct (node.New _ _) as [n h1].
  destruct (node.InsertAfter _ _ _ _) as [hd h2].
  intros [= <- <-]. reflexivity.
Qed.

Lemma mkloop_effect (S : TypesettingSettings) (items : list Item) :
  Forall (λ itm, match itm with ItemText t => mknodes_effect t | _ => True end)
    items ->
  forall m fe r items' fe',
    mkloop mknodes S items m fe = (Ok r, items', fe') ->
    items' = inheritAll S (mkText S items)
    /\ compiledRuns fe' = compiledRuns fe ++ runs (mkText S items').
Proof.
  induction 1 as [|itm rest Hitm Hrest IH]; intros m fe r items' fe' Hrun.
  - cbn [mkloop] in Hrun.
    destruct (m_hyperlinkStartNode m) as [start|].
    + pose proof (closeHyperlink_runs start m fe) as Hc.
      destruct (closeHyperlink start m fe) as [m1 fe1].
      injection Hrun as _ <- <-. split; [reflexivity|].
      cbn in *. now rewrite Hc, app_nil_r.
    + injection Hrun as _ <- <-. split; [reflexivity|].
      cbn. now rewrite app_nil_r.
  - destruct itm as [s|t|n|ty]; cbn [mkloop] in Hrun.
    + (* a string *)
      assert (Hpre : exists m1 fe1,
                 (match m_hyperlinkStartNode m with
                  | Some start => closeHyperlink start m fe
                  | None => (m, fe)
                  end) = (m1, fe1) /\ compiledRuns fe1 = compiledRuns fe).
      { destruct (m_hyperlinkStartNode m) as [start|].
        - pose proof (closeHyperlink_runs start m fe) as Hc.
          destruct (closeHyperlink start m fe) as [m1 fe1]. eauto.
        - eauto. }
      destruct Hpre as (m1 & fe1 & Hpre & Hruns1). rewrite Hpre in Hrun.
      pose proof (BuildNodelistFromString_runs S s fe1) as Hb.
      destruct (BuildNodelistFromString S s fe1) as [[[nl|]| | |] fe2];
        try discriminate; cbn [snd] in Hb.
      * destruct (node.InsertAfter _ _ nl _) as [hd h].
        destruct (node.Tail h nl) as [tl|]; [|discriminate].
        destruct (mkloop mknodes S rest _ _) as [[r0 rest'] fe3] eqn:Hl.
        injection Hrun as -> <- <-.
        destruct (IH _ _ _ _ _ Hl) as [-> Hr]. split; [reflexivity|].
        rewrite Hr, compiledRuns_withHeap, Hb, Hruns1.
        cbn. now rewrite <- app_assoc.
      * destruct (mkloop mknodes S rest _ _) as [[r0 rest'] fe3] eqn:Hl.
        injection Hrun as -> <- <-.
        destruct (IH _ _ _ _ _ Hl) as [-> Hr]. split; [reflexivity|].
        rewrite Hr, Hb, Hruns1. cbn. now rewrite <- app_assoc.
    + (* a nested span *)
      destruct (openHyperlink (Settings t) m fe) as [[m1 fe1]| | |] eqn:Ho;
        try discriminate.
      apply openHyperlink_runs in Ho.
      rewrite inheritSettings_inherited in Hrun.
      destruct (mknodes (inherited S (Settings t)) t fe1)
        as [[[[nl tl]| | |] childItems] fe2] eqn:Hchild; try discriminate.
      destruct (Hitm _ _ _ _ _ Hchild) as [-> Hr2].
      assert (Hpost : exists m2 fe3,
                 (match nl with
                  | Some n =>
                      let '(head, h) :=
                        node.InsertAfter (m_head m1) (m_tail m1) n (heap fe2) in
                      (mkMkstate head tl (m_hyperlinkStartNode m1)
                         (m_hyperlinkDest m1), withHeap fe2 h)
                  | None => (m1, fe2)
                  end) = (m2, fe3) /\ compiledRuns fe3 = compiledRuns fe2).
      { destruct nl as [n|]; [|eauto].
        destruct (node.InsertAfter _ _ n _) as [hd h]. eauto. }
      destruct Hpost as (m2 & fe3 & Hpost & Hruns3). rewrite Hpost in Hrun.
      destruct (mkloop mknodes S rest m2 fe3) as [[r0 rest'] fe4] eqn:Hl.
      injection Hrun as -> <- <-.
      destruct (IH _ _ _ _ _ Hl) as [-> Hr]. split.
      * destruct t as [cs citems]. reflexivity.
      * rewrite Hr, Hruns3, Hr2, Ho. cbn. now rewrite <- app_assoc.
    + (* a node *)
      destruct (node.InsertAfter _ _ n _) as [hd h].
      destruct (mkloop mknodes S rest _ _) as [[r0 rest'] fe3] eqn:Hl.
      injection Hrun as -> <- <-.
      destruct (IH _ _ _ _ _ Hl) as [-> Hr]. split; [reflexivity|].
      now rewrite Hr, compiledRuns_withHeap.
    + (* anything else *)
      destruct (mkloop mknodes S rest _ _) as [[r0 rest'] fe3] eqn:Hl.
      injection Hrun as -> <- <-.
      destruct (IH _ _ _ _ _ Hl) as [-> Hr]. split; [reflexivity|].
      now rewrite Hr.
Qed.

Lemma mknodes_has_effect (t : Text) : mknodes_effect t.
Proof.
  induction t as [settings0 items Hitems] using Text_nested_ind.
  intros settings fe r items' fe' Hrun.
  destruct items as [|itm rest].
  - cbn in Hrun. injection Hrun as _ <- <-. split; [reflexivity|].
    cbn. now rewrite app_nil_r.
  - cbn [mknodes] in Hrun. rewrite copySettings_id in Hrun.
    destruct (mkloop_effect settings (itm :: rest) Hitems _ _ _ _ _ Hrun)
      as [-> Hr].
    split; [reflexivity | exact Hr].
Qed.

(** The tree and the history after a successful [Mknodes]. *)
Lemma Mknodes_effect (ts ts' : Text) (fe fe' : Document)
    (r : option nat * option nat) :
  Mknodes ts fe = (Ok r, ts', fe') ->
  ts' = inheritTree (Settings ts) ts
  /\ compiledRuns fe' = compiledRuns fe ++ runs ts'.
Proof.
  unfold Mknodes.
  destruct (mknodes (Settings ts) ts fe) as [[r0 items'] fe0] eqn:Hrun.
  intros [= -> <- <-].
  destruct (mknodes_has_effect ts _ _ _ _ _ Hrun) as [-> Hr].
  split; [reflexivity | exact Hr].
Qed.

Lemma Items_inheritTree (S : TypesettingSettings) (t : Text) (i : nat) :
  Items (inheritTree S t) !! i
  = (λ itm, match itm with
            | ItemText c => ItemText (inheritTree (inherited S (Settings c)) c)
            | _ => itm
            end) <$> (Items t !! i).
Proof. destruct t as [s0 items]. cbn. now rewrite lookup_map. Qed.

(** A span of the tree is, after the compile, the same span with the
    settings it inherits. *)
Lemma subspan_inheritTree (q : list nat) (S : TypesettingSettings)
    (ts p : Text) :
  subspan q ts = Some p ->
  exists S', subspan q (inheritTree S ts) = Some (inheritTree S' p).
Proof.
  revert S ts. induction q as [|i q IH]; intros S ts Hq; cbn in Hq.
  - injection Hq as ->. now exists S.
  - destruct (Items ts !! i) as [[| c | |]|] eqn:Hi; try discriminate.
    destruct (IH (inherited S (Settings c)) c Hq) as [S' HS'].
    exists S'. cbn [subspan]. now rewrite Items_inheritTree, Hi.
Qed.

(** The settings of a nested span after a successful compile: its own
    entries and, for the keys it does not define, those of the span around
    it as the compile left them, without the hyperlink. *)
Lemma nested_span_after_compile (ts ts' : Text) (fe fe' : Document)
    (r : option nat * option nat) (q : list nat) (p : Text) (i : nat)
    (c : Text) :
  Mknodes ts fe = (Ok r, ts', fe') ->
  subspan q ts = Some p ->
  Items p !! i = Some (ItemText c) ->
  exists p' c',
    subspan q ts' = Some p'
    /\ Items p' !! i = Some (ItemText c')
    /\ Settings c' = inherited (Settings p') (Settings c)
    /\ (forall j s, Items c !! j = Some (ItemString s) ->
                    Items c' !! j = Some (ItemString s)).
Proof.
  intros Hrun Hq Hi. apply Mknodes_effect in Hrun as [-> _].
  destruct (subspan_inheritTree q (Settings ts) ts p Hq) as [S' HS'].
  exists (inheritTree S' p), (inheritTree (inherited S' (Settings c)) c).
  split; [exact HS'|]. split; [now rewrite Items_inheritTree, Hi|].
  split; [reflexivity|].
  intros j s Hj. now rewrite Items_inheritTree, Hj.
Qed.

(** A text run of a span of the tree is a run of the tree, with the
    settings of the span. *)
Lemma runs_subspan (q : list nat) (t c : Text) (j : nat) (s : string) :
  subspan q t = Some c ->
  Items c !! j = Some (ItemString s) ->
  In (Settings c, s) (runs t).
Proof.
  revert t. induction q as [|i q IH]; intros t Hq Hj; cbn in Hq.
  - injection Hq as ->. destruct c as [cs items]. cbn in *.
    apply in_flat_map. exists (ItemString s).
    split; [|now left]. apply list_elem_of_In, list_elem_of_lookup. eauto.
  - destruct (Items t !! i) as [[| c0 | |]|] eqn:Hi; try discriminate.
    destruct t as [tset items]. cbn in *.
    apply in_flat_map. exists (ItemText c0).
    split; [|now apply IH]. apply list_elem_of_In, list_elem_of_lookup. eauto.
Qed.

Lemma lookup_inherited_own (parent child : TypesettingSettings) (k : Z)
    (v : Value) :
  k ≠ SettingHyperlink -> child !! k = Some v ->
  inherited parent child !! k = Some v.
Proof.
  intros Hk Hc. unfold inherited.
  rewrite lookup_delete_ne by congruence.
  now apply lookup_union_Some_l.
Qed.

Lemma lookup_inherited_absent (parent child : TypesettingSettings) (k : Z) :
  k ≠ SettingHyperlink -> child !! k = None ->
  inherited parent child !! k = parent !! k.
Proof.
  intros Hk Hc. unfold inherited.
  rewrite lookup_delete_ne by congruence.
  now apply lookup_union_r.
Qed.

Lemma lookup_inherited_hyperlink (parent child : TypesettingSettings) :
  inherited parent child !! SettingHyperlink = None.
Proof. unfold inherited. apply lookup_delete_eq. Qed.


(** The settings a call of [FormatParagraph] on a span with items leaves
    in the span. *)
Lemma FormatParagraph_settings (te : Text) (hsize : Z)
    (opts : list TypesettingOption) (fe : Document) (p0 : paragraph) :
  Items te ≠ [] ->
  newParagraph te hsize fe = Ok p0 ->
  Settings (FormatParagraph te hsize opts fe).1.2
  = writeOptions (applyOptions opts p0) (Settings te).
Proof.
  intros Hne Hp. unfold FormatParagraph.
  destruct (Items te) as [|itm rest]; [congruence|]. rewrite Hp.
  repeat match goal with
         | |- context [match ?x with _ => _ end] =>
             lazymatch x with
             | context [match _ with _ => _ end] => fail
             | _ => destruct x
             end
         end; reflexivity.
Qed.


End Facts.

(** The compile of [linkedChild] succeeds; the tree and the document it
    leaves are the first two components of [compiledTwice]. *)
Lemma linkedChild_compiles :
  Mknodes Examples.linkedChild Examples.emptyDocument
  = (Ok (Some 0%nat, Some 2%nat),
     Examples.compiledTwice.1.1, Examples.compiledTwice.1.2).
Proof. vm_compute. reflexivity. Qed.




(** The witness of [font_miss_fails_the_compile]: weight 650 in the family
    of the examples. *)
Lemma font_miss_fails_the_compile_witness :
  ~ declares Examples.family 650 FontStyleNormal
  /\ exists e,
       (e = ErrEmptyFF \/ e = ErrUnfulfilledFamilyRequest)
       /\ GetFontSource Examples.family 650 FontStyleNormal = Err e.
Proof.
  assert (Hno : ~ declares Examples.family 650 FontStyleNormal).
  { intros (fm & byStyle & fs & Hfm & Hw & _).
    vm_compute in Hfm. injection Hfm as <-. vm_compute in Hw. discriminate. }
  split; [exact Hno|].
  destruct (font_miss_fails_the_compile (ext := Examples.collaborators)
              Examples.family 650 FontStyleNormal Hno)
    as (e & Hcase & He & _).
  exists e. split; assumption.
Defined.

End FrontendFacts.

(** * The node list of a text run *)

Module TextRunFacts.

Import frontend Spec NodeFacts.

(** ** Appending to the list under construction *)

Lemma last_snoc_some {A : Type} (l : list A) (x : A) : last (l ++ [x]) = Some x.
Proof. apply last_snoc. Qed.

(** [append] puts the new node at the end of the list. *)
Lemma append_listOf (c : node.Content) (lg : nat -> option nat) (b : build)
    (ids : list nat) (cs : list node.Content) :
  listOf b ids cs ->
  listOf (append c lg b) (ids ++ [length (b_heap b)]) (cs ++ [c])
  /\ b_lastglue (append c lg b) = lg (length (b_heap b))
  /\ length (b_heap (append c lg b)) = S (length (b_heap b)).
Proof.
  intros (Hchain & Hcur & Hcs). destruct b as [hd cur lastglue h]. cbn in *.
  set (n := length h). set (h1 := (node.New c h).2).
  assert (Hold : forall i, In i ids -> (i < n)%nat).
  { intros i Hi. exact (chain_lt _ _ _ _ Hchain Hi). }
  assert (Hmap : forall h2,
             (forall i, (i < n)%nat -> node.contentOf h2 i = node.contentOf h i) ->
             node.contentOf h2 n = Some c ->
             map (node.contentOf h2) (ids ++ [n]) = map Some (cs ++ [c])).
  { intros h2 Ho Hn. rewrite !map_app. cbn. rewrite Hn, <- Hcs. f_equal.
    apply map_ext_in. intros i Hi. apply Ho, Hold, Hi. }
  destruct ids as [|c0 pre _] using rev_ind.
  - (* the list is empty *)
    cbn in Hchain, Hcur. subst hd cur. unfold append. cbn.
    split; [|split; [reflexivity | rewrite length_app; cbn; lia]].
    split; [|split; [reflexivity|]].
    + cbn. split; [reflexivity|]. split; [rewrite length_app; cbn; lia|].
      apply (Next_New_new c h).
    + apply Hmap; [intros i Hi; apply (contentOf_New_old c h i Hi)|].
      apply (contentOf_New_new c h).
  - (* the list ends with the node [c0] *)
    rewrite last_snoc in Hcur. subst cur.
    pose proof (chain_head _ _ _ Hchain) as Hhd.
    assert (Hc0 : (c0 < n)%nat) by (apply Hold, in_or_app; right; now left).
    pose proof (chain_last_next _ _ _ _ Hchain) as Hnone.
    assert (Hhd' : exists x, hd = Some x).
    { rewrite Hhd. destruct pre; cbn; eauto. }
    destruct Hhd' as [x ->].
    unfold append. cbn -[node.SetPrev node.SetNext node.Next].
    assert (Hn1 : node.Next (h ++ [node.mkNode c None None []]) c0 = None).
    { pose proof (Next_New_old c h c0 Hc0) as Hx. cbn in Hx.
      now rewrite Hx. }
    rewrite Hn1. unfold listOf.
    cbn -[node.SetPrev node.SetNext node.Next node.chain node.contentOf].
    set (h2 := node.SetPrev n (Some c0)
                 (node.SetNext c0 (Some n) (h ++ [node.mkNode c None None []]))).
    assert (Hlen : length h2 = S n).
    { unfold h2. rewrite length_SetPrev, length_SetNext, length_app. cbn. lia. }
    split; [|split; [reflexivity | exact Hlen]].
    split; [|split; [now rewrite last_snoc|]].
    + rewrite <- app_assoc. cbn.
      apply (chain_snoc h h2 (Some x) pre c0 n Hchain).
      * intros i Hi Hlt. unfold h2.
        rewrite Next_SetPrev, Next_SetNext_ne by exact Hi.
        apply (Next_New_old c h i Hlt).
      * unfold h2. rewrite Next_SetPrev. apply Next_SetNext_eq.
        rewrite length_app. cbn. lia.
      * unfold h2. rewrite Next_SetPrev, Next_SetNext_ne by lia.
        apply (Next_New_new c h).
      * lia.
      * lia.
    + apply Hmap.
      * intros i Hi. unfold h2.
        rewrite contentOf_SetPrev, contentOf_SetNext.
        apply (contentOf_New_old c h i Hi).
      * unfold h2. rewrite contentOf_SetPrev, contentOf_SetNext.
        apply (contentOf_New_new c h).
Qed.

(** Two, three and four appends in a row. *)
Lemma append2_listOf (c1 c2 : node.Content) (lg1 lg2 : nat -> option nat)
    (b : build) (ids : list nat) (cs : list node.Content) :
  listOf b ids cs ->
  let b2 := append c2 lg2 (append c1 lg1 b) in
  exists ids', listOf b2 (ids ++ ids') (cs ++ [c1; c2])
               /\ b_lastglue b2 = lg2 (S (length (b_heap b))).
Proof.
  intros H0.
  destruct (append_listOf c1 lg1 b ids cs H0) as (H1 & _ & Hl1).
  destruct (append_listOf c2 lg2 _ _ _ H1) as (H2 & Hg2 & _).
  rewrite Hl1 in Hg2. rewrite <- !app_assoc in H2. cbn [app] in H2.
  eexists. split; [exact H2 | exact Hg2].
Qed.

Lemma append3_listOf (c1 c2 c3 : node.Content) (lg : nat -> option nat)
    (b : build) (ids : list nat) (cs : list node.Content) :
  listOf b ids cs ->
  let b3 := append c3 lg (append c2 lg (append c1 lg b)) in
  exists ids', listOf b3 (ids ++ ids') (cs ++ [c1; c2; c3])
               /\ b_lastglue b3 = lg (S (S (length (b_heap b)))).
Proof.
  intros H0.
  destruct (append_listOf c1 lg b ids cs H0) as (H1 & _ & Hl1).
  destruct (append_listOf c2 lg _ _ _ H1) as (H2 & _ & Hl2).
  destruct (append_listOf c3 lg _ _ _ H2) as (H3 & Hg3 & _).
  rewrite Hl2, Hl1 in Hg3. rewrite <- !app_assoc in H3. cbn [app] in H3.
  eexists. split; [exact H3 | exact Hg3].
Qed.

Lemma append4_listOf (c : node.Content) (lg : nat -> option nat)
    (b : build) (ids : list nat) (cs : list node.Content) :
  listOf b ids cs ->
  let b4 := append c lg (append c lg (append c lg (append c lg b))) in
  exists ids', listOf b4 (ids ++ ids') (cs ++ [c; c; c; c])
               /\ b_lastglue b4 = lg (S (S (S (length (b_heap b))))).
Proof.
  intros H0.
  destruct (append_listOf c lg b ids cs H0) as (H1 & _ & Hl1).
  destruct (append_listOf c lg _ _ _ H1) as (H2 & _ & Hl2).
  destruct (append_listOf c lg _ _ _ H2) as (H3 & _ & Hl3).
  destruct (append_listOf c lg _ _ _ H3) as (H4 & Hg4 & _).
  rewrite Hl3, Hl2, Hl1 in Hg4. rewrite <- !app_assoc in H4. cbn [app] in H4.
  eexists. split; [exact H4 | exact Hg4].
Qed.

(** One turn of [node.AppendLineEndAfter] is an [append]. *)
Lemma lineEnd_step (c : node.Content) (b : build) :
  (let '(p, h) := node.New c (b_heap b) in
   let '(head, h) := node.InsertAfter (b_head b) (b_cur b) p h in
   (head, Some p, h))
  = (b_head (append c Some b), b_cur (append c Some b),
     b_heap (append c Some b)).
Proof.
  unfold append. destruct (node.New c (b_heap b)) as [p h].
  destruct (node.InsertAfter (b_head b) (b_cur b) p h) as [hd h']. reflexivity.
Qed.

Lemma AppendLineEndAfter_appends (b : build) :
  let b3 :=
    append (node.Penalty (node.Penalty.mk (-10000) 0)) Some
      (append (node.Glue (node.Glue.mk 0 bag.Factor 0 1 0 node.GlueLineEnd)) Some
         (append (node.Penalty (node.Penalty.mk 10000 0)) Some b)) in
  node.AppendLineEndAfter (b_head b) (b_cur b) (b_heap b)
  = (b_head b3, b_cur b3, b_heap b3).
Proof.
  cbv zeta. unfold node.AppendLineEndAfter, node.lineEnd. cbn [fold_left].
  rewrite (lineEnd_step _ b).
  rewrite (lineEnd_step _ (append _ Some b)).
  rewrite (lineEnd_step _ (append _ Some (append _ Some b))).
  reflexivity.
Qed.

(** ** The loop over the atoms *)

(** One turn of the loop adds the nodes of [stepNodes] to the list. *)
Lemma atomStep_listOf (fnt : nat) (fntv : font.Font) (preserve : bool)
    (yoffset : Z) (r : font.Atom) (b b' : build) (ids : list nat)
    (cs : list node.Content) :
  listOf b ids cs ->
  atomStep fnt fntv preserve yoffset r b = Ok b' ->
  exists ns ids',
    stepNodes preserve fnt fntv yoffset (pending (b_lastglue b)) r
    = Some (ns, pending (b_lastglue b'))
    /\ listOf b' (ids ++ ids') (cs ++ ns).
Proof.
  intros H0. unfold atomStep, stepNodes, preservedAtom.
  destruct (font.IsSpace r).
  - destruct preserve.
    + destruct (String.eqb (font.Components r) space).
      { intros [= <-].
        destruct (append_listOf (ruleOf fntv) Some b ids cs H0) as (H1 & Hg & _).
        exists [ruleOf fntv], [length (b_heap b)].
        rewrite Hg. now split. }
      destruct (String.eqb (font.Components r) tab).
      { intros [= <-].
        destruct (append4_listOf (ruleOf fntv) Some b ids cs H0)
          as (ids' & H4 & Hg).
        exists [ruleOf fntv; ruleOf fntv; ruleOf fntv; ruleOf fntv], ids'.
        rewrite Hg. now split. }
      destruct (String.eqb (font.Components r) linefeed); [|discriminate].
      rewrite (AppendLineEndAfter_appends b).
      intros [= <-].
      destruct (append3_listOf (node.Penalty (node.Penalty.mk 10000 0))
                  (node.Glue (node.Glue.mk 0 bag.Factor 0 1 0 node.GlueLineEnd))
                  (node.Penalty (node.Penalty.mk (-10000) 0)) Some b ids cs H0)
        as (ids' & H3 & Hg).
      exists node.lineEnd, ids'. cbn [b_lastglue].
      destruct H3 as (Hc & Hcur & Hcs).
      assert (Hp : pending
                (b_cur (append (node.Penalty (node.Penalty.mk (-10000) 0)) Some
                   (append (node.Glue
                              (node.Glue.mk 0 bag.Factor 0 1 0 node.GlueLineEnd))
                      Some
                      (append (node.Penalty (node.Penalty.mk 10000 0)) Some b))))
              = true).
      { unfold append at 1.
        destruct (node.New _ _) as [p h]. destruct (node.InsertAfter _ _ _ _).
        reflexivity. }
      rewrite Hp. split; [reflexivity|]. repeat split; assumption.
    + destruct (b_lastglue b) as [g|] eqn:Hlg.
      * intros [= <-]. exists [], []. rewrite Hlg. cbn.
        rewrite !app_nil_r. now split.
      * intros [= <-].
        destruct (append_listOf (glueOf fntv) Some b ids cs H0) as (H1 & Hg & _).
        exists [glueOf fntv], [length (b_heap b)]. rewrite Hg. now split.
  - unfold glyphNodes.
    destruct (append_listOf (glyphOf fnt yoffset r) (λ _, None) b ids cs H0)
      as (H1 & Hg1 & _).
    destruct (negb (font.Kernafter r =? 0)).
    + intros [= <-].
      destruct (append_listOf (kernOf r)
                  (λ _, b_lastglue (append (glyphOf fnt yoffset r) (λ _, None) b))
                  _ _ _ H1) as (H2 & Hg2 & _).
      rewrite <- !app_assoc in H2. cbn [app] in H2.
      eexists _, _. split; [|exact H2]. now rewrite Hg2, Hg1.
    + intros [= <-]. eexists _, _. split; [|exact H1]. now rewrite Hg1.
Qed.

(** The loop adds the nodes of [emitted] to the list. *)
Lemma atomLoop_listOf (fnt : nat) (fntv : font.Font) (preserve : bool)
    (yoffset : Z) (atoms : list font.Atom) (b b' : build) (ids : list nat)
    (cs : list node.Content) :
  listOf b ids cs ->
  atomLoop fnt fntv preserve yoffset atoms b = Ok b' ->
  exists ns ids',
    emitted preserve fnt fntv yoffset (pending (b_lastglue b)) atoms = Some ns
    /\ listOf b' (ids ++ ids') (cs ++ ns).
Proof.
  revert b ids cs. induction atoms as [|r atoms IH]; intros b ids cs H0 Hrun.
  - injection Hrun as <-. exists [], []. rewrite !app_nil_r. now split.
  - cbn [atomLoop] in Hrun.
    destruct (atomStep fnt fntv preserve yoffset r b) as [b1| | |] eqn:Hstep;
      try discriminate.
    destruct (atomStep_listOf _ _ _ _ _ _ _ _ _ H0 Hstep)
      as (ns1 & ids1 & Hs1 & H1).
    destruct (IH _ _ _ H1 Hrun) as (ns2 & ids2 & Hs2 & H2).
    exists (ns1 ++ ns2), (ids1 ++ ids2). cbn [emitted].
    rewrite Hs1, Hs2, !app_assoc. now split.
Qed.

(** ** The nodes of the loop and the policies *)

Lemma emitted_preserved (fnt : nat) (fntv : font.Font) (yoffset : Z)
    (glued : bool) (atoms : list font.Atom) :
  emitted true fnt fntv yoffset glued atoms
  = preservedNodes fnt fntv yoffset atoms.
Proof.
  revert glued. induction atoms as [|r atoms IH]; intros glued; [reflexivity|].
  cbn [emitted preservedNodes]. unfold stepNodes, preservedAtom.
  destruct (font.IsSpace r).
  - destruct (String.eqb (font.Components r) space);
      [now rewrite IH|].
    destruct (String.eqb (font.Components r) tab); [now rewrite IH|].
    destruct (String.eqb (font.Components r) linefeed); [now rewrite IH|].
    reflexivity.
  - now rewrite IH.
Qed.

(** The collapsed nodes of a run, atom by atom: a space atom gives the
    glue of its maximal run when it is the first of the run. *)
Definition afterSpace (fnt : nat) (fntv : font.Font) (yoffset : Z)
    (atoms : list font.Atom) : list node.Content :=
  match atoms with
  | r :: _ =>
      if font.IsSpace r then tail (collapsedNodes fnt fntv yoffset atoms)
      else collapsedNodes fnt fntv yoffset atoms
  | [] => []
  end.

Lemma collapsedNodes_space (fnt : nat) (fntv : font.Font) (yoffset : Z)
    (r : font.Atom) (atoms : list font.Atom) :
  font.IsSpace r = true ->
  collapsedNodes fnt fntv yoffset (r :: atoms)
  = glueOf fntv :: afterSpace fnt fntv yoffset atoms.
Proof.
  intros Hr. destruct atoms as [|r' atoms].
  - unfold collapsedNodes. cbn. now rewrite Hr.
  - unfold afterSpace, collapsedNodes. cbn [segments]. rewrite Hr.
    destruct (font.IsSpace r').
    + destruct (segments atoms) as [|[r'' more|r''] segs]; reflexivity.
    + reflexivity.
Qed.

Lemma collapsedNodes_glyph (fnt : nat) (fntv : font.Font) (yoffset : Z)
    (r : font.Atom) (atoms : list font.Atom) :
  font.IsSpace r = false ->
  collapsedNodes fnt fntv yoffset (r :: atoms)
  = glyphNodes fnt yoffset r ++ collapsedNodes fnt fntv yoffset atoms.
Proof.
  intros Hr. unfold collapsedNodes. cbn [segments]. now rewrite Hr.
Qed.

Lemma emitted_collapsed_both (fnt : nat) (fntv : font.Font) (yoffset : Z)
    (atoms : list font.Atom) :
  emitted false fnt fntv yoffset false atoms
  = Some (collapsedNodes fnt fntv yoffset atoms)
  /\ emitted false fnt fntv yoffset true atoms
     = Some (afterSpace fnt fntv yoffset atoms).
Proof.
  induction atoms as [|r atoms [IH1 IH2]]; [now split|].
  cbn [emitted]. unfold stepNodes.
  destruct (font.IsSpace r) eqn:Hr.
  - rewrite IH2. split.
    + now rewrite (collapsedNodes_space _ _ _ r atoms Hr).
    + change (afterSpace fnt fntv yoffset (r :: atoms))
        with (if font.IsSpace r
              then tail (collapsedNodes fnt fntv yoffset (r :: atoms))
              else collapsedNodes fnt fntv yoffset (r :: atoms)).
      now rewrite Hr, (collapsedNodes_space _ _ _ r atoms Hr).
  - rewrite IH1. split.
    + now rewrite (collapsedNodes_glyph _ _ _ r atoms Hr).
    + change (afterSpace fnt fntv yoffset (r :: atoms))
        with (if font.IsSpace r
              then tail (collapsedNodes fnt fntv yoffset (r :: atoms))
              else collapsedNodes fnt fntv yoffset (r :: atoms)).
      now rewrite Hr, (collapsedNodes_glyph _ _ _ r atoms Hr).
Qed.

Lemma emitted_collapsed (fnt : nat) (fntv : font.Font) (yoffset : Z)
    (atoms : list font.Atom) :
  emitted false fnt fntv yoffset false atoms
  = Some (collapsedNodes fnt fntv yoffset atoms).
Proof. apply emitted_collapsed_both. Qed.

(** ** The markers around the atoms *)

Lemma listOf_empty (h : list node.Node) :
  listOf (mkBuild None None None h) [] [].
Proof. repeat split. Qed.

(** The list after the opening markers of a run with a hyperlink and a
    colour: it starts at the colour start. *)
Lemma listOf_colStart_behind_hyperlink (hl : Hyperlink) (col : color.Color)
    (h : list node.Node) :
  let n0 := length h in
  let h1 := (node.New (hyperlinkStartOf hl) h).2 in
  let n1 := length h1 in
  let h2 := (node.New (colStartOf col) h1).2 in
  let h3 := (node.InsertAfter (Some n0) (Some n0) n1 h2).2 in
  listOf (mkBuild (Some n1) (Some n1) None h3) [n1] [colStartOf col].
Proof.
  intros n0 h1 n1 h2 h3.
  assert (Hl1 : n1 = S n0).
  { unfold h1, n1, n0. apply length_New. }
  assert (Hl2 : length h2 = S n1).
  { unfold h2. now rewrite length_New. }
  assert (Hn0 : node.Next h2 n0 = None).
  { unfold h2. rewrite Next_New_old by (fold n1; lia).
    unfold h1. apply (Next_New_new (hyperlinkStartOf hl) h). }
  assert (Hh3 : h3 = node.SetPrev n1 (Some n0) (node.SetNext n0 (Some n1) h2)).
  { unfold h3, node.InsertAfter. now rewrite Hn0. }
  assert (F1 : node.Next h2 n1 = None).
  { unfold h2. apply (Next_New_new (colStartOf col) h1). }
  assert (F2 : node.contentOf h2 n1 = Some (colStartOf col)).
  { unfold h2. apply (contentOf_New_new (colStartOf col) h1). }
  assert (Hn : n1 ≠ n0) by lia.
  clearbody h3 h2 n1. subst h3.
  unfold listOf. cbn [b_head b_cur b_heap last]. split; [|split; [reflexivity|]].
  - cbn [node.chain]. split; [reflexivity|].
    split; [rewrite length_SetPrev, length_SetNext, Hl2; lia|].
    now rewrite Next_SetPrev, Next_SetNext_ne.
  - cbn [map]. now rewrite contentOf_SetPrev, contentOf_SetNext, F2.
Qed.

(** With a list that is not empty, the stop of the colour is appended like
    every other node: the head that [InsertAfter] returns and the code
    drops is the head the list has. *)
Lemma colStop_is_append (b : build) (ids : list nat) (cs : list node.Content) :
  listOf b ids cs -> ids ≠ [] ->
  (let '(stop, h) := node.New colStopOf (b_heap b) in
   let '(_, h) := node.InsertAfter (b_head b) (b_cur b) stop h in
   mkBuild (b_head b) (Some stop) (b_lastglue b) h)
  = append colStopOf (λ _, b_lastglue b) b.
Proof.
  intros (Hc & Hcur & _) Hne. unfold append.
  destruct (node.New colStopOf (b_heap b)) as [stop h].
  destruct ids as [|i ids]; [congruence|].
  destruct Hc as (Hhd & _). rewrite Hhd.
  destruct (b_cur b) as [c|] eqn:Hc0.
  - unfold node.InsertAfter. reflexivity.
  - exfalso. clear -Hcur. revert i Hcur.
    induction ids as [|j ids IH]; intros i Hcur; [discriminate|].
    now apply (IH j).
Qed.

Section Run.

Context {ext : Externals}.

(** The statements of [buildNodes] in front of the loop: the hyperlink
    start, if any, and the list with which the loop begins. *)
Definition openMarkers (l : locals) (h : list node.Node)
    : option nat * build :=
  let head : option nat := None in
  let '(hyperlinkStart, head, h) :=
    match l_hyperlink l with
    | Some hl =>
        let '(n, h) := node.New (hyperlinkStartOf hl) h in
        let '(_, h) :=
          match head with
          | Some _ => node.InsertAfter head head n h
          | None => (head, h)
          end in
        (Some n, Some n, h)
    | None => (None, head, h)
    end in
  let '(head, h) :=
    match l_col l with
    | Some col =>
        let '(colStart, h) := node.New (colStartOf col) h in
        let '(_, h) :=
          match head with
          | Some _ => node.InsertAfter head head colStart h
          | None => (head, h)
          end in
        (Some colStart, h)
    | None => (head, h)
    end in
  (hyperlinkStart, mkBuild head head None h).

(** The statements of [buildNodes] behind the loop. *)
Definition closeMarkers (l : locals) (hyperlinkStart : option nat) (b : build)
    : build :=
  let b :=
    match l_col l with
    | Some _ =>
        let '(stop, h) := node.New colStopOf (b_heap b) in
        let '(_, h) := node.InsertAfter (b_head b) (b_cur b) stop h in
        mkBuild (b_head b) (Some stop) (b_lastglue b) h
    | None => b
    end in
  match hyperlinkStart with
  | Some start => append (stopOf start) (λ _, b_lastglue b) b
  | None => b
  end.

Lemma buildNodes_parts (l : locals) (fnt : nat) (fntv : font.Font)
    (atoms : list font.Atom) (h : list node.Node) :
  buildNodes l fnt fntv atoms h
  = match atomLoop fnt fntv (l_preserveWhitespace l) (l_yoffset l) atoms
            (openMarkers l h).2 with
    | Ok b =>
        (Ok (b_head (closeMarkers l (openMarkers l h).1 b)),
         b_heap (closeMarkers l (openMarkers l h).1 b))
    | Err e => (Err e, b_heap (openMarkers l h).2)
    | Panic m => (Panic m, b_heap (openMarkers l h).2)
    | Stuck m => (Stuck m, b_heap (openMarkers l h).2)
    end.
Proof.
  unfold buildNodes, openMarkers, closeMarkers.
  destruct (l_hyperlink l) as [hl|]; destruct (l_col l) as [col|];
    unfold node.New; cbn -[node.InsertAfter atomLoop append];
    repeat match goal with
           | |- context [node.InsertAfter ?a ?b ?c ?d] =>
               destruct (node.InsertAfter a b c d) as [? ?]
           end; cbn -[node.InsertAfter atomLoop append];
    destruct (atomLoop _ _ _ _ _ _); try reflexivity;
    cbn -[node.InsertAfter atomLoop append];
    repeat match goal with
           | |- context [node.InsertAfter ?a ?b ?c ?d] =>
               destruct (node.InsertAfter a b c d) as [? ?]
           end; reflexivity.
Qed.

(** The list with which the loop begins holds the opening markers. *)
Lemma openMarkers_listOf (l : locals) (h : list node.Node) :
  exists ids0 cs0,
    listOf (openMarkers l h).2 ids0 cs0
    /\ Forall isStartStop cs0
    /\ b_lastglue (openMarkers l h).2 = None
    /\ (l_col l ≠ None -> ids0 ≠ [])
    /\ (openMarkers l h).1
       = match l_hyperlink l with Some _ => Some (length h) | None => None end.
Proof.
  unfold openMarkers.
  destruct (l_hyperlink l) as [hl|]; destruct (l_col l) as [col|].
  - pose proof (listOf_colStart_behind_hyperlink hl col h) as H0.
    cbv zeta in H0. unfold node.New in *. cbn -[node.InsertAfter] in *.
    destruct (node.InsertAfter _ _ _ _) as [hd0 h3].
    eexists _, _. split; [exact H0|].
    split; [repeat constructor|]. split; [reflexivity|].
    split; [discriminate | reflexivity].
  - destruct (append_listOf (hyperlinkStartOf hl) (λ _, None) _ _ _
                (listOf_empty h)) as (H0 & _ & _).
    eexists _, _. split; [exact H0|].
    split; [repeat constructor|]. split; [reflexivity|].
    split; [congruence | reflexivity].
  - destruct (append_listOf (colStartOf col) (λ _, None) _ _ _
                (listOf_empty h)) as (H0 & _ & _).
    eexists _, _. split; [exact H0|].
    split; [repeat constructor|]. split; [reflexivity|].
    split; [discriminate | reflexivity].
  - eexists _, _. split; [exact (listOf_empty h)|].
    split; [constructor|]. split; [reflexivity|].
    split; [congruence | reflexivity].
Qed.

(** The closing markers are appended to the list. *)
Lemma closeMarkers_listOf (l : locals) (hs : option nat) (b : build)
    (ids : list nat) (cs : list node.Content) :
  listOf b ids cs ->
  (l_col l ≠ None -> ids ≠ []) ->
  exists ids' closing,
    listOf (closeMarkers l hs b) (ids ++ ids') (cs ++ closing)
    /\ Forall isStartStop closing.
Proof.
  intros H1 Hne. unfold closeMarkers.
  destruct (l_col l) as [col|].
  - rewrite (colStop_is_append b ids cs H1) by (apply Hne; discriminate).
    destruct (append_listOf colStopOf (λ _, b_lastglue b) b _ _ H1)
      as (H2 & _ & _).
    destruct hs as [start|].
    + destruct (append_listOf (stopOf start)
                  (λ _, b_lastglue (append colStopOf (λ _, b_lastglue b) b))
                  _ _ _ H2) as (H3 & _ & _).
      rewrite <- !app_assoc in H3. eexists _, _. split; [exact H3|].
      repeat constructor.
    + eexists _, _. split; [exact H2|]. repeat constructor.
  - destruct hs as [start|].
    + destruct (append_listOf (stopOf start) (λ _, b_lastglue b) b _ _ H1)
        as (H2 & _ & _).
      eexists _, _. split; [exact H2|]. repeat constructor.
    + exists [], []. rewrite !app_nil_r. split; [exact H1 | constructor].
Qed.

(** The list of a run, from the markers in front to the markers behind. *)
Lemma buildNodes_listOf (l : locals) (fnt : nat) (fntv : font.Font)
    (atoms : list font.Atom) (h h' : list node.Node) (head : option nat) :
  buildNodes l fnt fntv atoms h = (Ok head, h') ->
  exists ids opening closing body,
    node.chain h' head ids
    /\ map (node.contentOf h') ids = map Some (opening ++ body ++ closing)
    /\ Forall isStartStop opening
    /\ Forall isStartStop closing
    /\ emitted (l_preserveWhitespace l) fnt fntv (l_yoffset l) false atoms
       = Some body.
Proof.
  rewrite buildNodes_parts.
  destruct (openMarkers_listOf l h) as (ids0 & cs0 & H0 & Hm0 & Hg0 & Hne0 & _).
  destruct (atomLoop _ _ _ _ _ _) as [b1| | |] eqn:Hloop; try discriminate.
  destruct (atomLoop_listOf _ _ _ _ _ _ b1 ids0 cs0 H0 Hloop)
    as (body & ids1 & Hbody & H1).
  rewrite Hg0 in Hbody. cbn [pending] in Hbody.
  destruct (closeMarkers_listOf l (openMarkers l h).1 b1 _ _ H1)
    as (ids2 & closing & H2 & Hm2).
  { intros Hc Hnil. apply app_eq_nil in Hnil as [Hnil _]. now apply Hne0. }
  intros [= <- <-]. destruct H2 as (Hc2 & _ & Hcs2).
  exists ((ids0 ++ ids1) ++ ids2), cs0, closing, body.
  rewrite <- (app_assoc cs0) in Hcs2. repeat split; assumption.
Qed.


End Run.

(** The run "A  B" compiles. *)
Lemma spacedRun_compiles :
  BuildNodelistFromString Examples.baseSettings "A  B" Examples.emptyDocument
  = (Ok (Some 0%nat), Examples.spacedRun.2).
Proof. vm_compute. reflexivity. Qed.


End TextRunFacts.

(** * Where the code departs from its specification *)

Module Defects.

Import frontend Examples.

(** C4, on the failing input. Three text runs on one document, in the same
    family and so with the same face, at 10pt, 12pt and 10pt: the cache
    forgets the 10pt instance when the 12pt one is made, so [CreateFont] is
    called three times, twice for the key (face 0, 10pt), and the first and
    the third run get different instances (0 and 2). *)
Theorem font_cache_creates_a_font_twice :
  let '(r1, r3, fe1, fe3) := threeRuns in
  (r1 = Ok (Some 0%nat) /\ fontOfNode (heap fe1) 0 = Some 0%nat)
  /\ (r3 = Ok (Some 2%nat) /\ fontOfNode (heap fe3) 2 = Some 2%nat)
  /\ fonts fe3
     = [ CreateFont 0 (10 * bag.Factor);
         CreateFont 0 (12 * bag.Factor);
         CreateFont 0 (10 * bag.Factor) ].
Proof. vm_compute. repeat split; reflexivity. Qed.

(** C2, on the failing input. The text "A" with a hyperlink and a colour
    on its span: the list [Mknodes] returns starts at the colour start
    (node 1) and ends with the hyperlink stop (node 4), whose
    back-reference is the hyperlink start (node 0), a node that is not in
    the list. *)
Theorem hyperlink_start_dropped_by_color :
  let '(r, _, fe) := Mknodes coloredLink emptyDocument in
  r = Ok (Some 1%nat, Some 4%nat)
  /\ node.toList (heap fe) (Some 1%nat) = [1; 2; 3; 4]%nat
  /\ node.contentOf (heap fe) 4 = Some (stopOf 0)
  /\ node.contentOf (heap fe) 0 = Some (hyperlinkStartOf example_com)
  /\ ¬ In 0%nat (node.toList (heap fe) (Some 1%nat)).
Proof.
  vm_compute. repeat split; try reflexivity.
  intros [H|[H|[H|[H|[]]]]]; discriminate.
Qed.

End Defects.
